(** * A one-dimensional bond-based peridynamic bar

    Shallow embedding of the notebook [1dbar_code.ipynb]: the parameter
    cell, the boundary-condition cell and the displacement cell (the main
    time loop).  The plotting cell only reads [u_vector_solution] and is
    not modelled.

    Numbers.  Python floats and NumPy float64 values are modelled as exact
    rationals in canonical form ([Qc]); binary64 rounding, overflow and the
    non-finite values are outside the model.  A division of two Python
    floats raises [ZeroDivisionError] on a zero divisor, and is modelled so
    ([py_div]).  NumPy arithmetic never raises: a division by zero yields
    [inf] or [nan] together with a [RuntimeWarning].  A division that
    involves a NumPy value is therefore a total function here as well
    ([x / 0 = 0] in [Qc]); every theorem below that states a value computed
    through such a division assumes the divisor to be non-zero, and the
    theorems on failure never look at the value.

    Where the model parts from binary64.  The values of the model are exact
    and finite.  A sum, a product or a quotient is not rounded, so a closed
    form that regroups the operations of the code need not hold of the
    floats: the theorems equate a computed value with the code's own
    expression of it, or with a copy, and state signs and strict
    comparisons elsewhere.  [linspace] has exact samples where
    [np.linspace] rounds each one (the two ends are stored as given).
    [time_steps] truncates the exact quotient [total_time / del_T] where
    the code truncates the rounded one, which can be one less; the theorems
    take [time_steps] as it comes out.  [horizon**4] neither overflows
    (where Python raises [OverflowError]) nor underflows to zero in the
    divisor of [c]; the theorems on a value computed from [c] assume that
    [c] evaluates, [c p = Ok cv].  [mu] compares the exact stretch with
    [s0], the code the rounded one.

    The parameter cell runs before the loop and divides Python numbers by
    [del_T], by [number_of_elements] and by [1 - 2 nu]; these are taken
    non-zero, and [total_time / del_T] and [bar_length] non-negative.

    Arrays.  [ny = 1] in the notebook, so every array of shape [(nx, ny)]
    is a list indexed by [x], and [for y in range(ny)] is the single
    iteration [y = 0].  Reads and writes by subscript raise [IndexError]
    out of range, as NumPy does. *)

From Stdlib Require Import QArith Qcanon Qcabs ZArith Lia.
From stdpp Require Import base list numbers.

(** ** Numbers *)

(** A decimal literal of the source. *)
Definition lit (q : Q) : Qc := Q2Qc q.
#[global] Arguments lit : simpl never.

(** Conversion of a Python [int] in mixed arithmetic. *)
Definition of_int (z : Z) : Qc := Qc_of_Z z.

(** [int(x)] on a float: truncation toward zero. *)
Definition py_int (q : Qc) : Z := Z.quot (Qnum q) (Zpos (Qden q)).

(** [np.sqrt].  Exact on squares of rationals, which are the only
    arguments the program produces (the second coordinate of every node is
    the constant one, so every distance is the root of a single square);
    on other arguments numerator and denominator are rounded down. *)
Definition np_sqrt (q : Qc) : Qc := Q2Qc (Z.sqrt (Qnum q) # Pos.sqrt (Qden q)).

(** [np.pi], the binary64 number nearest to pi. *)
Definition np_pi : Qc := lit (884279719003555 # 281474976710656).
#[global] Arguments np_pi : simpl never.

(** [a <= b] and [a > b] on floats. *)
Definition leb (a b : Qc) : bool := bool_decide (a <= b)%Qc.
Definition gtb (a b : Qc) : bool := bool_decide (b < a)%Qc.

(** [np.linspace(start, stop, num)]: [num] evenly spaced samples over the
    closed interval, the last one being [stop] itself. *)
Definition linspace (start stop : Qc) (num : nat) : list Qc :=
  match num with
  | 0 => []
  | 1 => [start]
  | S div =>
      map (fun i => start + of_int (Z.of_nat i) * ((stop - start) / of_int (Z.of_nat div)))%Qc
          (seq 0 div) ++ [stop]
  end.

(** [np.zeros(n)]. *)
Definition zeros (n : nat) : list Qc := repeat 0%Qc n.

(** ** Python exceptions and the loops that may raise them *)

Inductive PyError : Type := IndexError | NameError | ZeroDivisionError.

Inductive result (A : Type) : Type :=
  | Ok (a : A)
  | Raise (e : PyError).
Arguments Ok {A} a.
Arguments Raise {A} e.

#[global] Instance result_ret : MRet result := @Ok.
#[global] Instance result_bind : MBind result := fun A B f m =>
  match m with
  | Ok a => f a
  | Raise e => Raise e
  end.

Definition is_ok {A} (r : result A) : bool :=
  match r with Ok _ => true | Raise _ => false end.

(** [for i in l: s = body(s, i)]. *)
Fixpoint for_each {St I : Type} (body : St -> I -> result St) (l : list I) (s : St) : result St :=
  match l with
  | [] => Ok s
  | i :: l' => s' ← body s i; for_each body l' s'
  end.

(** [l[i]] as an expression. *)
Definition py_get {A} (l : list A) (i : nat) : result A :=
  match l !! i with
  | Some v => Ok v
  | None => Raise IndexError
  end.

(** [l[i] = v]. *)
Definition py_set {A} (l : list A) (i : nat) (v : A) : result (list A) :=
  if decide (i < length l) then Ok (<[i := v]> l) else Raise IndexError.

(** [a / b] on two Python floats. *)
Definition py_div (a b : Qc) : result Qc :=
  if decide (b = 0%Qc) then Raise ZeroDivisionError else Ok (a / b)%Qc.
#[global] Arguments py_div : simpl never.

(** ** The parameter cell *)

Record Params : Type := {
  rho : Qc;
  Young_modulus : Qc;
  nu : Qc;
  s0 : Qc;
  total_time : Qc;
  del_T : Qc;
  bar_length : Qc;
  number_of_elements : nat;
  (** The magnitude written [2e-2] in the boundary-condition cell. *)
  u0 : Qc
}.

Section Parameters.
Variable p : Params.

Definition K : Qc := (Young_modulus p / (lit 3.0 * (1 - lit 2.0 * nu p)))%Qc.
Definition time_steps : nat := Z.to_nat (py_int (total_time p / del_T p)%Qc).
Definition nx : nat := number_of_elements p.
Definition delta_x : Qc := (bar_length p / of_int (Z.of_nat (number_of_elements p)))%Qc.
Definition nodes : list Qc :=
  linspace (- bar_length p / lit 2.0)%Qc (bar_length p / lit 2.0)%Qc (number_of_elements p).
(** [np.column_stack((nodes, np.ones_like(nodes)))]. *)
Definition nodes_coords : list (Qc * Qc) := map (fun node => (node, 1%Qc)) nodes.
(** The first assignment [horizon = 1.6] is dead: this one replaces it. *)
Definition horizon : Qc := (delta_x * lit 3.014)%Qc.
Definition vol : Qc := 1%Qc.

(** [np.arange(len(nodes))] and the rows [id, x, y]. *)
Definition ids : list nat := seq 0 (length nodes).
Definition nodes_with_ids : list (Qc * (Qc * Qc)) :=
  zip (map (fun i => of_int (Z.of_nat i)) ids) nodes_coords.

(** ** The boundary-condition cell *)

Definition u_applied_05 : list Qc := linspace (u0 p) (u0 p) (time_steps / 3).
Definition u_applied_510 : list Qc := linspace (- u0 p)%Qc (- u0 p)%Qc (time_steps / 3).
Definition u_applied_1015 : list Qc := linspace 0%Qc 0%Qc (time_steps / 3).
Definition u_applied : list Qc := u_applied_05 ++ u_applied_510 ++ u_applied_1015.

Definition start_position : Qc := (- bar_length p / lit 2.0)%Qc.
Definition end_position : Qc := (bar_length p / lit 2.0)%Qc.
End Parameters.

(** The values of the notebook. *)
Definition notebook : Params := {|
  rho := lit 8e-6;
  Young_modulus := lit 19578.55;
  nu := lit 0.3;
  s0 := lit 0.02;
  total_time := lit 15;
  del_T := lit 0.1;
  bar_length := lit 15;
  number_of_elements := 7;
  u0 := lit 2e-2
|}.

(** ** The displacement cell *)

(** The variables that live across iterations of the time loop. *)
Record State : Type := {
  u_vector_solution : list (list Qc);
  u_vector_at_current_time_step : list Qc;
  u_vector_at_future_time_step : list Qc;
  u_vector_at_previous_time_step : list Qc;
  (** The variable [acceleration]: unbound until its first assignment. *)
  acceleration : option Qc
}.

Definition initial_state (p : Params) : State := {|
  u_vector_solution := repeat (zeros (nx p)) (time_steps p);
  u_vector_at_current_time_step := zeros (nx p);
  u_vector_at_future_time_step := zeros (nx p);
  u_vector_at_previous_time_step := zeros (nx p);
  acceleration := None
|}.

(** *** Boundary injection *)

Definition in_boundary_layer (p : Params) (node : Qc) : bool :=
  leb (Qcabs (node - start_position p)) (horizon p)
  || leb (Qcabs (node - end_position p)) (horizon p).

(** The body of [for i in range(len(nodes))]. *)
Definition apply_boundary (p : Params) (n : nat) (node_values : list Qc) (i : nat)
  : result (list Qc) :=
  node ← py_get (nodes p) i;
  if in_boundary_layer p node then
    v ← py_get (u_applied p) n;
    py_set node_values i v
  else Ok node_values.

(** [node_values] of step [n], as the force loop reads it. *)
Definition boundary_loop (p : Params) (n : nat) : result (list Qc) :=
  for_each (apply_boundary p n) (seq 0 (length (nodes p))) (zeros (nx p)).

(** *** Bond forces *)

Definition distance (a b : Qc * Qc) : Qc :=
  np_sqrt ((a.1 - b.1) ^ 2 + (a.2 - b.2) ^ 2)%Qc.

(** [KDTree(data).query_ball_point(x, r)], as SciPy documents it: the
    indices of the points of [data] at Euclidean distance at most [r] from
    [x], for a radius [r] that is not negative.  The notebook uses the
    length of the result only. *)
Definition query_ball_point (data : list (Qc * Qc)) (x : Qc * Qc) (r : Qc) : list nat :=
  map fst (List.filter (fun jp => leb (distance jp.2 x) r) (zip (seq 0 (length data)) data)).

Definition ksi_of (xp_locx xp_locy : Z) (xi_locx xi_locy : Qc) : Qc :=
  np_sqrt ((of_int xp_locx - xi_locx) ^ 2 + (of_int xp_locy - xi_locy) ^ 2)%Qc.

(** [K], [np.pi] and [horizon] are Python floats: this division raises. *)
Definition c (p : Params) : result Qc :=
  py_div (lit 18 * K p)%Qc (np_pi * horizon p ^ 4)%Qc.
#[global] Arguments c : simpl never.

Definition stretch (ksi eta : Qc) : Qc := ((Qcabs (ksi + eta) - Qcabs ksi) / Qcabs ksi)%Qc.

Definition mu (p : Params) (s : Qc) : Z := if gtb s (s0 p) then 0 else 1.

(** The bond part of the term added to [sum_term]. *)
Definition bond_force (p : Params) (c ksi eta : Qc) : Qc :=
  ((((ksi + eta) / Qcabs (ksi + eta)) * c * stretch ksi eta
    * of_int (mu p (stretch ksi eta))) * vol)%Qc.

(** The literal [9.8e-9] added with every bond. *)
Definition body_force : Qc := lit 9.8e-9.

(** The body of [for p in range(len(neighbor_ids))]; the loop carries
    [sum_term] and [acceleration].  The loop variable is called [pidx]
    here. *)
Definition neighbor_body (p : Params) (node_values : list Qc)
    (xi : Qc) (xi_index : Z) (xi_locx xi_locy : Qc)
    (vars : Qc * option Qc) (pidx : nat) : result (Qc * option Qc) :=
  row ← py_get (nodes_coords p) pidx;
  let xp_locx := py_int row.1 in
  let xp_locy := py_int row.2 in
  idrow ← py_get (nodes_with_ids p) pidx;
  let xp_index := py_int idrow.1 in
  (* ids are never negative, so the subscript does not wrap around *)
  xp ← py_get node_values (Z.to_nat xp_index);
  if (xp_index =? xi_index)%Z then Ok vars
  else
    let ksi := ksi_of xp_locx xp_locy xi_locx xi_locy in
    let eta := (xp - xi)%Qc in
    c ← c p;
    let sum_term := (vars.1 + bond_force p c ksi eta + body_force)%Qc in
    Ok (sum_term, Some (sum_term / rho p)%Qc).

(** *** One node, one step, the run *)

(** The body of [for x in range(nx)] at step [n]. *)
Definition node_update (p : Params) (n : nat) (node_values : list Qc)
    (st : State) (x : nat) : result State :=
  xi ← py_get node_values x;
  idrow ← py_get (nodes_with_ids p) x;
  let xi_index := py_int idrow.1 in
  row ← py_get (nodes_coords p) x;
  let xi_locx := row.1 in
  let xi_locy := row.2 in
  let node_index := py_int idrow.1 in
  center ← py_get (nodes_coords p) (Z.to_nat node_index);
  let neighbor_ids := query_ball_point (nodes_coords p) center (horizon p) in
  vars ← for_each (neighbor_body p node_values xi xi_index xi_locx xi_locy)
                  (seq 0 (length neighbor_ids)) (0%Qc, acceleration st);
  a ← match vars.2 with Some a => Ok a | None => Raise NameError end;
  u_cur ← py_get (u_vector_at_current_time_step st) x;
  u_prev ← py_get (u_vector_at_previous_time_step st) x;
  fut ← py_set (u_vector_at_future_time_step st) x
               (a * del_T p ^ 2 + 2 * u_cur - u_prev)%Qc;
  sol_n ← py_get (u_vector_solution st) n;
  sol_n' ← py_set sol_n x u_cur;
  sol ← py_set (u_vector_solution st) n sol_n';
  Ok {| u_vector_solution := sol;
        u_vector_at_current_time_step := u_vector_at_current_time_step st;
        u_vector_at_future_time_step := fut;
        u_vector_at_previous_time_step := u_vector_at_previous_time_step st;
        acceleration := vars.2 |}.

(** The [x] loop of step [n], cut after its first [k] iterations. *)
Definition nodes_loop (p : Params) (n : nat) (node_values : list Qc)
    (k : nat) (st : State) : result State :=
  for_each (node_update p n node_values) (seq 0 k) st.

(** The two [copy()] assignments that end a step. *)
Definition rotate (st : State) : State := {|
  u_vector_solution := u_vector_solution st;
  u_vector_at_current_time_step := u_vector_at_future_time_step st;
  u_vector_at_future_time_step := u_vector_at_future_time_step st;
  u_vector_at_previous_time_step := u_vector_at_current_time_step st;
  acceleration := acceleration st
|}.

(** The body of [for n in range(0, time_steps)]. *)
Definition time_step (p : Params) (st : State) (n : nat) : result State :=
  node_values ← boundary_loop p n;
  st' ← nodes_loop p n node_values (nx p) st;
  Ok (rotate st').

(** The first [k] steps, and the whole loop. *)
Definition run_steps (p : Params) (k : nat) : result State :=
  for_each (time_step p) (seq 0 k) (initial_state p).

Definition run (p : Params) : result State := run_steps p (time_steps p).

(** ** Closed forms

    The functions below are not in the notebook.  They name what its loops
    compute, and the lemmas of the next part prove that the loops compute
    exactly that. *)

(** Some node lies within the horizon of a bar end. *)
Definition has_boundary_node (p : Params) : bool :=
  existsb (in_boundary_layer p) (nodes p).

(** [node_values] once the boundary loop of step [n] has run. *)
Definition node_values_at (p : Params) (n : nat) : list Qc :=
  map (fun node => if in_boundary_layer p node then default 0%Qc (u_applied p !! n) else 0%Qc)
      (nodes p).

(** [neighbor_ids] for node [x]. *)
Definition neighbor_ids (p : Params) (x : nat) : list nat :=
  match nodes_coords p !! x with
  | Some center => query_ball_point (nodes_coords p) center (horizon p)
  | None => []
  end.

(** The values of the loop variable for which the neighbour loop of node
    [x] reaches the statement that updates [sum_term]. *)
Definition bond_indices (p : Params) (x : nat) : list nat :=
  List.filter (fun pidx => negb (pidx =? x)) (seq 0 (length (neighbor_ids p x))).

(** [ksi] and [eta] as the loop of node [x] computes them for the value
    [pidx] of its loop variable. *)
Definition ksi_at (p : Params) (x pidx : nat) : Qc :=
  ksi_of (py_int (default 0%Qc (nodes p !! pidx))) (py_int 1%Qc)
         (default 0%Qc (nodes p !! x)) 1%Qc.

Definition eta_at (node_values : list Qc) (x pidx : nat) : Qc :=
  (default 0%Qc (node_values !! pidx) - default 0%Qc (node_values !! x))%Qc.

(** The value of [c], and whether its division raises. *)
Definition micro_modulus (p : Params) : Qc :=
  ((lit 18 * K p) / (np_pi * horizon p ^ 4))%Qc.
#[global] Arguments micro_modulus : simpl never.

Definition c_undefined (p : Params) : bool :=
  bool_decide ((np_pi * horizon p ^ 4)%Qc = 0%Qc).
#[global] Arguments c_undefined : simpl never.

(** The neighbour loop of node [x] goes through some bond. *)
Definition has_bond (p : Params) (x : nat) : bool :=
  existsb (fun pidx => negb (pidx =? x)) (seq 0 (length (neighbor_ids p x))).

(** One iteration of the neighbour loop on [(sum_term, acceleration)]. *)
Definition neighbor_step (p : Params) (node_values : list Qc) (x : nat)
    (vars : Qc * option Qc) (pidx : nat) : Qc * option Qc :=
  if pidx =? x then vars
  else
    let sum_term :=
      (vars.1 + bond_force p (micro_modulus p) (ksi_at p x pidx) (eta_at node_values x pidx)
       + body_force)%Qc in
    (sum_term, Some (sum_term / rho p)%Qc).

(** [(sum_term, acceleration)] when the neighbour loop of node [x] ends,
    [acceleration] being [acc0] when it starts. *)
Definition neighbor_vars (p : Params) (node_values : list Qc) (x : nat)
    (acc0 : option Qc) : Qc * option Qc :=
  fold_left (neighbor_step p node_values x) (seq 0 (length (neighbor_ids p x))) (0%Qc, acc0).

(** The variable [acceleration] after the first [k] nodes of a step. *)
Definition accel_after (p : Params) (node_values : list Qc) (k : nat)
    (acc0 : option Qc) : option Qc :=
  fold_left (fun acc x => (neighbor_vars p node_values x acc).2) (seq 0 k) acc0.

(** The value stored in [u_vector_at_future_time_step[x]]. *)
Definition future_value (p : Params) (node_values : list Qc) (st : State) (x : nat) : Qc :=
  (default 0%Qc (accel_after p node_values (S x) (acceleration st)) * del_T p ^ 2
   + 2 * default 0%Qc (u_vector_at_current_time_step st !! x)
   - default 0%Qc (u_vector_at_previous_time_step st !! x))%Qc.

(** The state after the first [k] nodes of step [n]. *)
Definition nodes_done (p : Params) (n : nat) (node_values : list Qc) (k : nat)
    (st : State) : State := {|
  u_vector_solution :=
    <[n := take k (u_vector_at_current_time_step st)
           ++ drop k (default [] (u_vector_solution st !! n))]> (u_vector_solution st);
  u_vector_at_current_time_step := u_vector_at_current_time_step st;
  u_vector_at_future_time_step :=
    map (future_value p node_values st) (seq 0 k) ++ drop k (u_vector_at_future_time_step st);
  u_vector_at_previous_time_step := u_vector_at_previous_time_step st;
  acceleration := accel_after p node_values k (acceleration st)
|}.

(** The shapes the notebook allocates. *)
Definition shaped (p : Params) (st : State) : Prop :=
  length (u_vector_at_current_time_step st) = nx p
  /\ length (u_vector_at_future_time_step st) = nx p
  /\ length (u_vector_at_previous_time_step st) = nx p
  /\ length (u_vector_solution st) = time_steps p
  /\ Forall (fun row => length row = nx p) (u_vector_solution st).

(** Some bond the loops go through has [ksi = 0]. *)
Definition zero_length_bond (p : Params) : bool :=
  existsb (fun x => existsb (fun pidx => bool_decide (ksi_at p x pidx = 0%Qc))
                            (bond_indices p x))
          (seq 0 (nx p)).

(** How the whole loop ends: the exception it raises, if any. *)
Definition run_outcome (p : Params) : option PyError :=
  if time_steps p =? 0 then None
  else if has_boundary_node p && (time_steps p <? 3) then Some IndexError
  else if length (neighbor_ids p 0) <=? 1 then Some NameError
  else if c_undefined p then Some ZeroDivisionError
  else if has_boundary_node p && negb (time_steps p mod 3 =? 0) then Some IndexError
  else None.

(** ** Readings of the specification

    The two definitions below follow the words of the specification, not
    the notebook; they are compared with what the notebook computes. *)

(** The field from which forces are evaluated, as the specification has
    it: the current displacement field, overwritten with the boundary value
    of step [n] at the nodes of the boundary layers. *)
Definition prescribed_current_field (p : Params) (n : nat) (st : State) : list Qc :=
  zip_with (fun node u => if in_boundary_layer p node
                          then default 0%Qc (u_applied p !! n) else u)
           (nodes p) (u_vector_at_current_time_step st).

(** The net force density at node [i], as the specification has it: one
    term for every node [j] other than [i] within the horizon of [i], with
    [ksi = |x_j - x_i|] taken from the reference coordinates. *)
Definition specified_sum_term (p : Params) (node_values : list Qc) (i : nat) : Qc :=
  fold_left
    (fun sum_term j =>
       (sum_term
        + bond_force p (micro_modulus p)
                     (Qcabs (default 0%Qc (nodes p !! j) - default 0%Qc (nodes p !! i)))
                     (eta_at node_values i j)
        + body_force)%Qc)
    (List.filter (fun j => negb (j =? i)) (neighbor_ids p i)) 0%Qc.

(** ** Other parameter values *)

Definition with_u0 (p : Params) (u : Qc) : Params := {|
  rho := rho p; Young_modulus := Young_modulus p; nu := nu p; s0 := s0 p;
  total_time := total_time p; del_T := del_T p; bar_length := bar_length p;
  number_of_elements := number_of_elements p; u0 := u
|}.

Definition with_total_time (p : Params) (t : Qc) : Params := {|
  rho := rho p; Young_modulus := Young_modulus p; nu := nu p; s0 := s0 p;
  total_time := t; del_T := del_T p; bar_length := bar_length p;
  number_of_elements := number_of_elements p; u0 := u0 p
|}.

Definition with_geometry (p : Params) (len : Qc) (count : nat) : Params := {|
  rho := rho p; Young_modulus := Young_modulus p; nu := nu p; s0 := s0 p;
  total_time := total_time p; del_T := del_T p; bar_length := len;
  number_of_elements := count; u0 := u0 p
|}.

(** The notebook with ten times its boundary displacement. *)
Definition stretched : Params := with_u0 notebook (lit 0.2).


(** The notebook stopped after ten steps. *)
Definition ten_steps : Params := with_total_time notebook (lit 1).

(** The notebook stopped after two steps. *)
Definition two_steps : Params := with_total_time notebook (lit 0.2).

(** A bar of length 1 with three nodes, at -0.5, 0 and 0.5. *)
Definition short_bar : Params := with_geometry notebook (lit 1) 3.

(** * Properties *)

(** Equality of two closed numbers, bare or under one constructor: both
    sides are evaluated, and canonical rationals with the same fraction are
    equal. *)
Ltac qc_values :=
  vm_compute;
  first [ reflexivity
        | apply Qc_is_canon; reflexivity
        | f_equal; apply Qc_is_canon; reflexivity ].

(** The binds of a loop body whose reads have been resolved. *)
Ltac run_bind := cbn [mbind result_bind fst snd default from_option id].

(** ** Signs *)

Lemma of_int_S_neq_0 (d : nat) : of_int (Z.of_nat (S d)) <> 0%Qc.
Proof.
  unfold of_int. rewrite <- Z2Qc_inj_0. intros H. apply Z2Qc_inj in H. lia.
Qed.

Lemma of_int_S_pos (d : nat) : (0 < of_int (Z.of_nat (S d)))%Qc.
Proof.
  unfold Qclt, of_int, Qc_of_Z, Qlt. cbn [this Qnum Qden inject_Z Q2Qc].
  change (Qred 0) with 0%Q. cbn [Qnum Qden]. lia.
Qed.

Lemma of_int_nonneg (d : nat) : (0 <= of_int (Z.of_nat d))%Qc.
Proof.
  unfold Qcle, of_int, Qc_of_Z, Qle. cbn [this Qnum Qden inject_Z Q2Qc].
  change (Qred 0) with 0%Q. cbn [Qnum Qden]. lia.
Qed.

Lemma Qcmult_pos (a b : Qc) : (0 < a -> 0 < b -> 0 < a * b)%Qc.
Proof.
  intros Ha Hb. rewrite <- (Qcmult_0_l b). apply Qcmult_lt_compat_r; assumption.
Qed.

Lemma Qcmult_nonneg (a b : Qc) : (0 <= a -> 0 <= b -> 0 <= a * b)%Qc.
Proof.
  intros Ha Hb. rewrite <- (Qcmult_0_l b). apply Qcmult_le_compat_r; assumption.
Qed.

Lemma Qcinv_pos (a : Qc) : (0 < a -> 0 < / a)%Qc.
Proof.
  unfold Qclt, Qcinv, Q2Qc. cbn [this]. intros Ha.
  assert (H : (0 < / a)%Q) by (apply Qinv_lt_0_compat; exact Ha).
  rewrite <- (Qred_correct (/ a)) in H. exact H.
Qed.

(** ** Loops *)

Lemma bind_ok {A B} (m : result A) (f : A -> result B) (b : B) :
  m ≫= f = Ok b <-> exists a, m = Ok a /\ f a = Ok b.
Proof.
  destruct m as [a|e]; simpl; split.
  - intros H. exists a. split; [reflexivity | exact H].
  - intros (a' & Ha & Hf). injection Ha as ->. exact Hf.
  - discriminate.
  - intros (a' & Ha & _). discriminate.
Qed.

Lemma for_each_app {St I} (body : St -> I -> result St) (l1 l2 : list I) (s : St) :
  for_each body (l1 ++ l2) s = for_each body l1 s ≫= for_each body l2.
Proof.
  revert s. induction l1 as [|i l1 IH]; intros s; simpl; [reflexivity|].
  destruct (body s i) as [s'|e]; simpl; [apply IH | reflexivity].
Qed.

Lemma for_each_seq_S {St} (body : St -> nat -> result St) (k m : nat) (s : St) :
  for_each body (seq k (S m)) s = for_each body (seq k m) s ≫= fun s' => body s' (k + m).
Proof.
  rewrite seq_S, for_each_app. destruct (for_each body (seq k m) s) as [s'|e]; simpl;
    [|reflexivity].
  destruct (body s' (k + m)); reflexivity.
Qed.

Lemma py_get_lookup {A} (l : list A) (i : nat) (v : A) :
  l !! i = Some v -> py_get l i = Ok v.
Proof. unfold py_get. intros ->. reflexivity. Qed.

Lemma py_get_ge {A} (l : list A) (i : nat) :
  length l <= i -> py_get l i = Raise IndexError.
Proof. unfold py_get. intros H. rewrite (lookup_ge_None_2 l i H). reflexivity. Qed.

Lemma py_set_lt {A} (l : list A) (i : nat) (v : A) :
  i < length l -> py_set l i v = Ok (<[i := v]> l).
Proof. unfold py_set. intros H. destruct (decide (i < length l)); [reflexivity | lia]. Qed.

(** ** The parameter cell *)

Lemma length_linspace (start stop : Qc) (num : nat) : length (linspace start stop num) = num.
Proof.
  destruct num as [|[|d]]; simpl; try reflexivity.
  rewrite length_app, length_map, length_seq. simpl. lia.
Qed.

Lemma length_nodes (p : Params) : length (nodes p) = nx p.
Proof. apply length_linspace. Qed.

Lemma length_nodes_coords (p : Params) : length (nodes_coords p) = nx p.
Proof. unfold nodes_coords. rewrite length_map. apply length_nodes. Qed.

Lemma nodes_coords_lookup (p : Params) (x : nat) (node : Qc) :
  nodes p !! x = Some node -> nodes_coords p !! x = Some (node, 1%Qc).
Proof. intros H. unfold nodes_coords. rewrite list_lookup_fmap, H. reflexivity. Qed.

Lemma py_int_of_int (z : Z) : py_int (of_int z) = z.
Proof.
  unfold py_int, of_int, Qc_of_Z. simpl. apply Z.quot_1_r.
Qed.

Lemma nodes_with_ids_lookup (p : Params) (x : nat) (node : Qc) :
  nodes p !! x = Some node ->
  nodes_with_ids p !! x = Some (of_int (Z.of_nat x), (node, 1%Qc)).
Proof.
  intros H. unfold nodes_with_ids, ids.
  apply lookup_zip_with_Some. exists (of_int (Z.of_nat x)), (node, 1%Qc).
  split; [reflexivity|]. split; [|apply nodes_coords_lookup, H].
  rewrite list_lookup_fmap, lookup_seq_lt; [reflexivity|].
  apply lookup_lt_Some in H. exact H.
Qed.

(** ** The boundary-condition cell *)

Lemma linspace_const (a : Qc) (num : nat) : linspace a a num = repeat a num.
Proof.
  destruct num as [|[|d]]; try reflexivity.
  unfold linspace.
  change (repeat a (S (S d))) with (a :: repeat a (S d)).
  rewrite repeat_cons. f_equal.
  generalize (of_int (Z.of_nat (S d))). intros q.
  generalize 0 at 1. induction (S d) as [|m IH]; intros k; simpl; [reflexivity|].
  f_equal; [|apply IH].
  unfold Qcdiv. ring.
Qed.

Lemma u_applied_repeat (p : Params) :
  u_applied p
  = repeat (u0 p) (time_steps p / 3)
    ++ repeat (- u0 p)%Qc (time_steps p / 3)
    ++ repeat 0%Qc (time_steps p / 3).
Proof.
  unfold u_applied, u_applied_05, u_applied_510, u_applied_1015.
  rewrite !linspace_const. reflexivity.
Qed.

Lemma length_u_applied (p : Params) : length (u_applied p) = 3 * (time_steps p / 3).
Proof. rewrite u_applied_repeat, !length_app, !repeat_length. lia. Qed.

(** C7.  The boundary-condition sequence is [time_steps // 3] copies of
    [+u0], then as many of [-u0], then as many of [0]; its length is
    [3 * (time_steps // 3)], so the [time_steps mod 3] last steps have no
    entry and nothing pads the sequence. *)
Theorem u_applied_three_phases (p : Params) :
  u_applied p
  = repeat (u0 p) (time_steps p / 3)
    ++ repeat (- u0 p)%Qc (time_steps p / 3)
    ++ repeat 0%Qc (time_steps p / 3)
  /\ length (u_applied p) = 3 * (time_steps p / 3)
  /\ length (u_applied p) + time_steps p mod 3 = time_steps p.
Proof.
  split; [apply u_applied_repeat|]. split; [apply length_u_applied|].
  rewrite length_u_applied. symmetry. apply Nat.div_mod_eq.
Qed.

(** ** Boundary injection *)

Lemma zeros_S (k m : nat) : m < k -> zeros (k - m) = 0%Qc :: zeros (k - S m).
Proof.
  intros H. replace (k - m) with (S (k - S m)) by lia. reflexivity.
Qed.

Lemma boundary_loop_prefix (p : Params) (n m : nat) :
  m <= nx p ->
  for_each (apply_boundary p n) (seq 0 m) (zeros (nx p))
  = if existsb (in_boundary_layer p) (take m (nodes p))
       && bool_decide (length (u_applied p) <= n)
    then Raise IndexError
    else Ok (map (fun node => if in_boundary_layer p node
                              then default 0%Qc (u_applied p !! n) else 0%Qc)
                 (take m (nodes p))
             ++ zeros (nx p - m)).
Proof.
  induction m as [|m IH]; intros Hm.
  - simpl. rewrite Nat.sub_0_r. reflexivity.
  - rewrite for_each_seq_S, IH by lia. clear IH. simpl "+".
    destruct (lookup_lt_is_Some_2 (nodes p) m) as [node Hnode];
      [rewrite length_nodes; lia|].
    rewrite (take_S_r _ _ _ Hnode), existsb_app, map_app. simpl existsb. simpl map.
    rewrite orb_false_r.
    set (f := fun node => if in_boundary_layer p node
                          then default 0%Qc (u_applied p !! n) else 0%Qc).
    assert (Hlen : length (map f (take m (nodes p))) = m).
    { rewrite length_map, length_take, length_nodes. lia. }
    destruct (existsb (in_boundary_layer p) (take m (nodes p))) eqn:E;
      destruct (bool_decide (length (u_applied p) <= n)) eqn:B; simpl;
      try reflexivity.
    + (* a boundary node before, [n] in range *)
      apply bool_decide_eq_false in B.
      destruct (lookup_lt_is_Some_2 (u_applied p) n) as [v Hv]; [lia|].
      unfold apply_boundary. rewrite (py_get_lookup _ _ _ Hnode). simpl.
      destruct (in_boundary_layer p node) eqn:L; simpl.
      * rewrite (py_get_lookup _ _ _ Hv). simpl.
        rewrite py_set_lt by (rewrite length_app, Hlen; unfold zeros;
                              rewrite repeat_length; lia).
        rewrite insert_app_r_alt by lia. rewrite Hlen, Nat.sub_diag.
        rewrite (zeros_S (nx p) m) by lia. simpl. rewrite Hv. simpl.
        rewrite <- app_assoc. reflexivity.
      * rewrite (zeros_S (nx p) m) by lia. rewrite <- app_assoc. reflexivity.
    + (* no boundary node so far, [n] out of range *)
      unfold apply_boundary. rewrite (py_get_lookup _ _ _ Hnode). simpl.
      destruct (in_boundary_layer p node) eqn:L; simpl.
      * apply bool_decide_eq_true in B. rewrite (py_get_ge _ _ B). reflexivity.
      * rewrite (zeros_S (nx p) m) by lia. rewrite <- app_assoc. reflexivity.
    + (* no boundary node so far, [n] in range *)
      apply bool_decide_eq_false in B.
      destruct (lookup_lt_is_Some_2 (u_applied p) n) as [v Hv]; [lia|].
      unfold apply_boundary. rewrite (py_get_lookup _ _ _ Hnode). simpl.
      destruct (in_boundary_layer p node) eqn:L; simpl.
      * rewrite (py_get_lookup _ _ _ Hv). simpl.
        rewrite py_set_lt by (rewrite length_app, Hlen; unfold zeros;
                              rewrite repeat_length; lia).
        rewrite insert_app_r_alt by lia. rewrite Hlen, Nat.sub_diag.
        rewrite (zeros_S (nx p) m) by lia. simpl. rewrite Hv. simpl.
        rewrite <- app_assoc. reflexivity.
      * rewrite (zeros_S (nx p) m) by lia. rewrite <- app_assoc. reflexivity.
Qed.

Lemma of_int_0 : of_int 0 = 0%Qc.
Proof. apply Qc_is_canon. reflexivity. Qed.

Lemma of_int_1 : of_int 1 = 1%Qc.
Proof. apply Qc_is_canon. reflexivity. Qed.

Lemma in_boundary_layer_iff (p : Params) (node : Qc) :
  in_boundary_layer p node = true
  <-> (Qcabs (node - start_position p) <= horizon p
       \/ Qcabs (node - end_position p) <= horizon p)%Qc.
Proof.
  unfold in_boundary_layer, leb. rewrite orb_true_iff, !bool_decide_eq_true. reflexivity.
Qed.

(** The first node is at the start of the bar, hence in its boundary
    layer as soon as the horizon is not negative. *)
Lemma first_node_in_boundary_layer (p : Params) :
  0 < number_of_elements p -> (0 <= horizon p)%Qc -> has_boundary_node p = true.
Proof.
  intros HN Hh. unfold has_boundary_node, nodes, linspace.
  assert (L : in_boundary_layer p (start_position p) = true).
  { apply in_boundary_layer_iff. left.
    replace (start_position p - start_position p)%Qc with 0%Qc by ring. exact Hh. }
  destruct (number_of_elements p) as [|[|d]]; [lia | |].
  - simpl. fold (start_position p). rewrite L. reflexivity.
  - cbn [seq map app existsb]. change (Z.of_nat 0) with 0%Z. rewrite of_int_0.
    fold (start_position p).
    replace (start_position p + 0 * _)%Qc with (start_position p) by ring.
    rewrite L. reflexivity.
Qed.

(** The boundary loop raises [IndexError] exactly when some node is in a
    boundary layer and [n] is past the end of [u_applied]; otherwise it
    produces [node_values_at]. *)
Lemma boundary_loop_spec (p : Params) (n : nat) :
  boundary_loop p n
  = if has_boundary_node p && bool_decide (length (u_applied p) <= n)
    then Raise IndexError
    else Ok (node_values_at p n).
Proof.
  unfold boundary_loop. rewrite length_nodes, boundary_loop_prefix by lia.
  unfold has_boundary_node, node_values_at.
  rewrite firstn_all2 by (rewrite length_nodes; lia).
  rewrite Nat.sub_diag. simpl. rewrite app_nil_r. reflexivity.
Qed.

(** ** Distances

    Every node has the second coordinate 1, so each root the program
    takes is the root of one square, where [np_sqrt] is exact. *)

Lemma pos_sqrt_square (b : positive) : Pos.sqrt (b * b) = b.
Proof.
  pose proof (Pos.sqrt_spec (b * b)) as H. cbv zeta in H.
  destruct H as (H1 & H2). nia.
Qed.

Lemma coprime_squares (a b : Z) : Z.gcd a b = 1%Z -> Z.gcd (a * a) (b * b) = 1%Z.
Proof.
  intros H.
  assert (H1 : Z.gcd a (b * b) = 1%Z) by (apply Z.coprime_mul_r; exact H).
  rewrite Z.gcd_comm in H1. rewrite Z.gcd_comm.
  apply Z.coprime_mul_r; exact H1.
Qed.

Lemma np_sqrt_square (d : Qc) : np_sqrt (d * d) = Qcabs d.
Proof.
  destruct d as [[a b] Hcan].
  assert (Hg : Z.gcd a (Zpos b) = 1%Z) by (apply (Qred_identity2 (a # b)), Hcan).
  assert (Hsq : Qred ((a # b) * (a # b)) = (a * a # b * b)).
  { apply Qred_identity. simpl. rewrite Pos2Z.inj_mul. apply coprime_squares, Hg. }
  unfold np_sqrt, Qcmult, Q2Qc. cbn [this]. rewrite Hsq. cbn [Qnum Qden].
  rewrite pos_sqrt_square, <- Z.abs_square, Z.sqrt_square by apply Z.abs_nonneg.
  apply Qc_is_canon. cbn [this]. rewrite Qred_correct. reflexivity.
Qed.

Lemma distance_same_row (a b : Qc) : distance (a, 1%Qc) (b, 1%Qc) = Qcabs (a - b).
Proof.
  unfold distance. cbn [fst snd]. rewrite <- np_sqrt_square. f_equal.
  simpl Qcpower. ring.
Qed.

Lemma ksi_at_abs (p : Params) (x pidx : nat) :
  ksi_at p x pidx
  = Qcabs (of_int (py_int (default 0%Qc (nodes p !! pidx))) - default 0%Qc (nodes p !! x)).
Proof.
  unfold ksi_at, ksi_of. rewrite <- np_sqrt_square. f_equal.
  replace (py_int 1%Qc) with 1%Z by reflexivity. rewrite of_int_1.
  simpl Qcpower. ring.
Qed.

(** The points [neighbor_ids] holds for node [x] are those whose
    coordinate is within the horizon of the coordinate of [x]. *)
Lemma neighbor_ids_spec (p : Params) (x j : nat) (node : Qc) :
  nodes p !! x = Some node ->
  In j (neighbor_ids p x)
  <-> exists other, nodes p !! j = Some other /\ (Qcabs (other - node) <= horizon p)%Qc.
Proof.
  intros Hx. unfold neighbor_ids, query_ball_point.
  rewrite (nodes_coords_lookup p x node Hx), in_map_iff. split.
  - intros ((j' & coords) & Hj & Hin). simpl in Hj. subst j'.
    apply filter_In in Hin. destruct Hin as (Hin & Hd).
    apply list_elem_of_In, list_elem_of_lookup in Hin. destruct Hin as (i & Hi).
    apply lookup_zip_with_Some in Hi.
    destruct Hi as (j' & coords' & [= <- <-] & Hseq & Hc).
    apply lookup_seq in Hseq. destruct Hseq as (-> & _). cbn [Nat.add] in *.
    unfold nodes_coords in Hc. rewrite list_lookup_fmap in Hc.
    destruct (nodes p !! i) as [other|] eqn:Ho; [|discriminate Hc].
    injection Hc as <-. exists other. split; [reflexivity|].
    cbn [snd] in Hd. rewrite distance_same_row in Hd.
    apply bool_decide_eq_true in Hd. exact Hd.
  - intros (other & Ho & Hd). exists (j, (other, 1%Qc)). split; [reflexivity|].
    apply filter_In. split.
    + apply list_elem_of_In, list_elem_of_lookup. exists j.
      apply lookup_zip_with_Some. exists j, (other, 1%Qc).
      split; [reflexivity|]. split; [|apply nodes_coords_lookup, Ho].
      apply lookup_seq. split; [reflexivity|].
      rewrite length_nodes_coords, <- length_nodes. apply lookup_lt_Some in Ho. exact Ho.
    + cbn [snd]. rewrite distance_same_row. apply bool_decide_eq_true. exact Hd.
Qed.

(** ** The neighbour loop *)

Lemma length_query_ball_point (data : list (Qc * Qc)) (x : Qc * Qc) (r : Qc) :
  length (query_ball_point data x r) <= length data.
Proof.
  unfold query_ball_point. rewrite length_map.
  etransitivity; [apply List.filter_length_le|].
  rewrite length_zip_with, length_seq. lia.
Qed.

Lemma length_neighbor_ids (p : Params) (x : nat) : length (neighbor_ids p x) <= nx p.
Proof.
  unfold neighbor_ids. destruct (nodes_coords p !! x); simpl; [|lia].
  rewrite <- (length_nodes_coords p). apply length_query_ball_point.
Qed.

Lemma c_spec (p : Params) :
  c p = if c_undefined p then Raise ZeroDivisionError else Ok (micro_modulus p).
Proof.
  unfold c, py_div, c_undefined, micro_modulus.
  destruct (decide ((np_pi * horizon p ^ 4)%Qc = 0%Qc)) as [E|E].
  - rewrite bool_decide_eq_true_2 by exact E. reflexivity.
  - rewrite bool_decide_eq_false_2 by exact E. reflexivity.
Qed.

(** One iteration of the neighbour loop raises when it computes [c] and
    the division fails, and nothing else; otherwise it does what
    [neighbor_step] says. *)
Lemma neighbor_body_spec (p : Params) (node_values : list Qc) (x : nat)
    (node xi : Qc) (vars : Qc * option Qc) (pidx : nat) :
  nodes p !! x = Some node ->
  node_values !! x = Some xi ->
  length node_values = nx p ->
  pidx < nx p ->
  neighbor_body p node_values xi (Z.of_nat x) node 1%Qc vars pidx
  = if c_undefined p && negb (pidx =? x)
    then Raise ZeroDivisionError
    else Ok (neighbor_step p node_values x vars pidx).
Proof.
  intros Hx Hxi Hlen Hp.
  destruct (lookup_lt_is_Some_2 (nodes p) pidx) as [nodep Hnodep];
    [rewrite length_nodes; lia|].
  destruct (lookup_lt_is_Some_2 node_values pidx) as [xp Hxp]; [lia|].
  unfold neighbor_body.
  rewrite (py_get_lookup _ _ _ (nodes_coords_lookup p pidx nodep Hnodep)). run_bind.
  rewrite (py_get_lookup _ _ _ (nodes_with_ids_lookup p pidx nodep Hnodep)). run_bind.
  rewrite py_int_of_int, Nat2Z.id, (py_get_lookup _ _ _ Hxp). run_bind.
  unfold neighbor_step, ksi_at, eta_at. rewrite Hx, Hxi, Hnodep, Hxp. run_bind.
  destruct (Nat.eqb_spec pidx x) as [->|Hne].
  - rewrite Z.eqb_refl, andb_false_r. reflexivity.
  - destruct (Z.eqb_spec (Z.of_nat pidx) (Z.of_nat x)) as [E|_]; [lia|].
    rewrite c_spec, andb_true_r. destruct (c_undefined p); reflexivity.
Qed.

Lemma neighbor_loop_spec (p : Params) (node_values : list Qc) (x : nat)
    (node xi : Qc) (vars : Qc * option Qc) (m : nat) :
  nodes p !! x = Some node ->
  node_values !! x = Some xi ->
  length node_values = nx p ->
  m <= nx p ->
  for_each (neighbor_body p node_values xi (Z.of_nat x) node 1%Qc) (seq 0 m) vars
  = if c_undefined p && existsb (fun pidx => negb (pidx =? x)) (seq 0 m)
    then Raise ZeroDivisionError
    else Ok (fold_left (neighbor_step p node_values x) (seq 0 m) vars).
Proof.
  intros Hx Hxi Hlen. induction m as [|m IH]; intros Hm.
  - run_bind. rewrite andb_false_r. reflexivity.
  - rewrite for_each_seq_S, IH by lia. rewrite seq_S, fold_left_app, existsb_app.
    cbn [existsb fold_left Nat.add]. rewrite orb_false_r.
    destruct (c_undefined p) eqn:Hc; cbn [andb].
    + destruct (existsb (fun pidx => negb (pidx =? x)) (seq 0 m)); cbn [orb];
        [reflexivity|].
      cbn [mbind result_bind].
      rewrite (neighbor_body_spec p node_values x node xi) by (assumption || lia).
      rewrite Hc. reflexivity.
    + cbn [mbind result_bind].
      rewrite (neighbor_body_spec p node_values x node xi) by (assumption || lia).
      rewrite Hc. reflexivity.
Qed.

Lemma has_bond_iff (p : Params) (x : nat) :
  has_bond p x = true <-> bond_indices p x <> [].
Proof.
  unfold has_bond, bond_indices.
  induction (seq 0 (length (neighbor_ids p x))) as [|pidx l IH]; simpl.
  - split; [discriminate | congruence].
  - destruct (negb (pidx =? x)); simpl; [split; [discriminate | reflexivity] | exact IH].
Qed.

(** Once bound, [acceleration] stays bound. *)
Lemma neighbor_step_bound (p : Params) (node_values : list Qc) (x : nat)
    (vars : Qc * option Qc) (pidx : nat) :
  is_Some vars.2 -> is_Some (neighbor_step p node_values x vars pidx).2.
Proof.
  intros H. unfold neighbor_step. destruct (pidx =? x); [exact H|]. simpl. eauto.
Qed.

Lemma neighbor_fold_bound (p : Params) (node_values : list Qc) (x : nat)
    (l : list nat) (vars : Qc * option Qc) :
  is_Some vars.2 -> is_Some (fold_left (neighbor_step p node_values x) l vars).2.
Proof.
  revert vars. induction l as [|pidx l IH]; intros vars H; simpl; [exact H|].
  apply IH, neighbor_step_bound, H.
Qed.

Lemma neighbor_vars_bound (p : Params) (node_values : list Qc) (x : nat) (acc0 : option Qc) :
  is_Some acc0 -> is_Some (neighbor_vars p node_values x acc0).2.
Proof. intros H. apply neighbor_fold_bound. exact H. Qed.

Lemma accel_after_S (p : Params) (node_values : list Qc) (k : nat) (acc0 : option Qc) :
  accel_after p node_values (S k) acc0
  = (neighbor_vars p node_values k (accel_after p node_values k acc0)).2.
Proof. unfold accel_after. rewrite seq_S, fold_left_app. reflexivity. Qed.

Lemma accel_after_bound (p : Params) (node_values : list Qc) (k : nat) (acc0 : option Qc) :
  is_Some (accel_after p node_values 1 acc0) ->
  is_Some (accel_after p node_values (S k) acc0).
Proof.
  intros H. induction k as [|k IH]; [exact H|].
  rewrite accel_after_S. apply neighbor_vars_bound, IH.
Qed.

(** ** One node *)

Lemma neighbor_ids_lookup (p : Params) (x : nat) (node : Qc) :
  nodes p !! x = Some node ->
  neighbor_ids p x = query_ball_point (nodes_coords p) (node, 1%Qc) (horizon p).
Proof.
  intros H. unfold neighbor_ids. rewrite (nodes_coords_lookup p x node H). reflexivity.
Qed.

(** The update of node [x] raises [ZeroDivisionError] when its neighbour
    loop computes [c] and the division fails, [NameError] when
    [acceleration] is still unbound after the neighbour loop, and nothing
    else. *)
Lemma node_update_spec (p : Params) (n : nat) (node_values : list Qc) (st : State)
    (x : nat) (node xi u_cur u_prev : Qc) (row : list Qc) :
  nodes p !! x = Some node ->
  node_values !! x = Some xi ->
  length node_values = nx p ->
  u_vector_at_current_time_step st !! x = Some u_cur ->
  u_vector_at_previous_time_step st !! x = Some u_prev ->
  x < length (u_vector_at_future_time_step st) ->
  u_vector_solution st !! n = Some row ->
  x < length row ->
  node_update p n node_values st x
  = if c_undefined p && has_bond p x then Raise ZeroDivisionError
    else
      match (neighbor_vars p node_values x (acceleration st)).2 with
      | None => Raise NameError
      | Some a =>
          Ok {| u_vector_solution := <[n := <[x := u_cur]> row]> (u_vector_solution st);
                u_vector_at_current_time_step := u_vector_at_current_time_step st;
                u_vector_at_future_time_step :=
                  <[x := (a * del_T p ^ 2 + 2 * u_cur - u_prev)%Qc]>
                    (u_vector_at_future_time_step st);
                u_vector_at_previous_time_step := u_vector_at_previous_time_step st;
                acceleration := Some a |}
      end.
Proof.
  intros Hx Hxi Hlen Hcur Hprev Hfut Hsol Hrow.
  unfold node_update.
  rewrite (py_get_lookup _ _ _ Hxi). run_bind.
  rewrite (py_get_lookup _ _ _ (nodes_with_ids_lookup p x node Hx)). run_bind.
  rewrite (py_get_lookup _ _ _ (nodes_coords_lookup p x node Hx)). run_bind.
  rewrite py_int_of_int, Nat2Z.id.
  rewrite (py_get_lookup _ _ _ (nodes_coords_lookup p x node Hx)). run_bind.
  rewrite <- (neighbor_ids_lookup p x node Hx).
  rewrite (neighbor_loop_spec p node_values x node xi) by
    (assumption || apply length_neighbor_ids).
  fold (has_bond p x). destruct (c_undefined p && has_bond p x); [reflexivity|].
  simpl. fold (neighbor_vars p node_values x (acceleration st)).
  destruct (neighbor_vars p node_values x (acceleration st)) as [sum_term [a|]];
    simpl; [|reflexivity].
  rewrite (py_get_lookup _ _ _ Hcur). simpl.
  rewrite (py_get_lookup _ _ _ Hprev). simpl.
  rewrite py_set_lt by exact Hfut. simpl.
  rewrite (py_get_lookup _ _ _ Hsol). simpl.
  rewrite py_set_lt by exact Hrow. simpl.
  rewrite py_set_lt by (apply lookup_lt_Some in Hsol; exact Hsol).
  reflexivity.
Qed.

Lemma insert_prefix_step {A} (pre l : list A) (k : nat) (v w : A) :
  length pre = k -> l !! k = Some w ->
  <[k := v]> (pre ++ drop k l) = (pre ++ [v]) ++ drop (S k) l.
Proof.
  intros Hpre Hl. rewrite insert_app_r_alt by lia.
  rewrite Hpre, Nat.sub_diag, (drop_S _ _ _ Hl). simpl.
  rewrite <- app_assoc. reflexivity.
Qed.

Lemma shaped_row (p : Params) (st : State) (n : nat) :
  shaped p st -> n < time_steps p ->
  exists row, u_vector_solution st !! n = Some row /\ length row = nx p.
Proof.
  intros (_ & _ & _ & Hsol & Hrows) Hn.
  destruct (lookup_lt_is_Some_2 (u_vector_solution st) n) as [row Hrow]; [lia|].
  exists row. split; [exact Hrow|].
  exact (proj1 (Forall_lookup _ _) Hrows n row Hrow).
Qed.

Lemma nodes_done_0 (p : Params) (n : nat) (node_values : list Qc) (st : State) :
  shaped p st -> n < time_steps p -> nodes_done p n node_values 0 st = st.
Proof.
  intros Hs Hn. destruct (shaped_row p st n Hs Hn) as (row & Hrow & _).
  unfold nodes_done. rewrite Hrow. simpl default.
  rewrite take_0, !drop_0, app_nil_l, (list_insert_id _ _ _ Hrow).
  destruct st; reflexivity.
Qed.

(** Processing node [k] after the first [k] nodes. *)
Lemma node_update_nodes_done (p : Params) (n : nat) (node_values : list Qc)
    (st : State) (k : nat) :
  shaped p st -> n < time_steps p -> length node_values = nx p -> k < nx p ->
  node_update p n node_values (nodes_done p n node_values k st) k
  = if c_undefined p && has_bond p k then Raise ZeroDivisionError
    else
      match accel_after p node_values (S k) (acceleration st) with
      | None => Raise NameError
      | Some _ => Ok (nodes_done p n node_values (S k) st)
      end.
Proof.
  intros Hs Hn Hlen Hk.
  destruct (shaped_row p st n Hs Hn) as (row & Hrow & Hrowlen).
  destruct Hs as (Hc & Hf & Hp & Hsol & Hrows).
  destruct (lookup_lt_is_Some_2 (nodes p) k) as [node Hnode];
    [rewrite length_nodes; lia|].
  destruct (lookup_lt_is_Some_2 node_values k) as [xi Hxi]; [lia|].
  destruct (lookup_lt_is_Some_2 (u_vector_at_current_time_step st) k) as [uc Huc]; [lia|].
  destruct (lookup_lt_is_Some_2 (u_vector_at_previous_time_step st) k) as [up Hup]; [lia|].
  destruct (lookup_lt_is_Some_2 (u_vector_at_future_time_step st) k) as [uf Huf]; [lia|].
  destruct (lookup_lt_is_Some_2 row k) as [ur Hur]; [lia|].
  rewrite (node_update_spec p n node_values _ k node xi uc up
             (take k (u_vector_at_current_time_step st) ++ drop k row)); try assumption.
  - destruct (c_undefined p && has_bond p k); [reflexivity|].
    simpl acceleration. rewrite <- accel_after_S.
    destruct (accel_after p node_values (S k) (acceleration st)) as [a|] eqn:Ha;
      [|reflexivity].
    f_equal. unfold nodes_done.
    cbn [u_vector_solution u_vector_at_current_time_step u_vector_at_future_time_step
         u_vector_at_previous_time_step acceleration].
    rewrite Hrow, Ha. cbn [default].
    rewrite list_insert_insert_eq.
    rewrite (insert_prefix_step _ row k uc ur)
      by (rewrite ?length_take; (lia || assumption)).
    rewrite <- (take_S_r _ _ _ Huc).
    rewrite (insert_prefix_step _ _ k _ uf)
      by (rewrite ?length_map, ?length_seq; (lia || assumption)).
    rewrite seq_S, map_app. cbn [map Nat.add]. unfold future_value at 3.
    rewrite Ha, Huc, Hup. reflexivity.
  - simpl. rewrite length_app, length_map, length_seq, length_drop. lia.
  - simpl. rewrite Hrow. simpl. apply list_lookup_insert_eq. lia.
  - rewrite length_app, length_take, length_drop. lia.
Qed.

(** ** One step *)

(** [acceleration] is unbound after the first node exactly when it was
    unbound before and the first node has no bond to go through. *)
Lemma neighbor_fold_unbound (p : Params) (node_values : list Qc) (x : nat)
    (l : list nat) (vars : Qc * option Qc) :
  (fold_left (neighbor_step p node_values x) l vars).2 = None
  <-> vars.2 = None /\ List.filter (fun pidx => negb (pidx =? x)) l = [].
Proof.
  revert vars. induction l as [|pidx l IH]; intros vars; simpl.
  - tauto.
  - rewrite IH. unfold neighbor_step. destruct (pidx =? x); simpl; [tauto|].
    split; [intros [H _]; discriminate | intros [_ H]; discriminate].
Qed.

Lemma accel_after_1_unbound (p : Params) (node_values : list Qc) (acc0 : option Qc) :
  accel_after p node_values 1 acc0 = None <-> acc0 = None /\ bond_indices p 0 = [].
Proof.
  unfold accel_after, neighbor_vars, bond_indices. simpl fold_left at 1.
  apply (neighbor_fold_unbound p node_values 0 _ (0%Qc, acc0)).
Qed.

Lemma bond_indices_0_nil (p : Params) :
  bond_indices p 0 = [] <-> length (neighbor_ids p 0) <= 1.
Proof.
  unfold bond_indices. destruct (length (neighbor_ids p 0)) as [|[|m]]; simpl.
  - split; [lia | reflexivity].
  - split; [lia | reflexivity].
  - split; [discriminate | lia].
Qed.

(** The node loop raises [NameError] at its first node or not at all, and
    [ZeroDivisionError] at the first node that has a bond. *)
Lemma nodes_loop_spec (p : Params) (n : nat) (node_values : list Qc) (k : nat) (st : State) :
  shaped p st -> n < time_steps p -> length node_values = nx p -> k <= nx p ->
  nodes_loop p n node_values k st
  = match k, accel_after p node_values 1 (acceleration st) with
    | S _, None => Raise NameError
    | _, _ =>
        if c_undefined p && existsb (has_bond p) (seq 0 k)
        then Raise ZeroDivisionError
        else Ok (nodes_done p n node_values k st)
    end.
Proof.
  intros Hs Hn Hlen. induction k as [|k IH]; intros Hk.
  - unfold nodes_loop. run_bind. rewrite nodes_done_0, andb_false_r by assumption.
    reflexivity.
  - unfold nodes_loop in *. rewrite for_each_seq_S, IH by lia. clear IH.
    rewrite seq_S, existsb_app. cbn [existsb Nat.add]. rewrite orb_false_r.
    destruct k as [|k].
    + cbn [seq existsb orb]. rewrite andb_false_r. cbn [mbind result_bind].
      rewrite node_update_nodes_done by (assumption || lia).
      destruct (accel_after p node_values 1 (acceleration st)) as [a|] eqn:Ha;
        [reflexivity|].
      apply accel_after_1_unbound in Ha. destruct Ha as (_ & Ha).
      destruct (has_bond p 0) eqn:Hb; [apply has_bond_iff in Hb; contradiction|].
      rewrite andb_false_r. reflexivity.
    + destruct (accel_after p node_values 1 (acceleration st)) as [a|] eqn:Ha;
        [|reflexivity].
      destruct (c_undefined p) eqn:Hc; cbn [andb];
        [destruct (existsb (has_bond p) (seq 0 (S k))); cbn [orb]; [reflexivity|]|];
        cbn [mbind result_bind];
        rewrite node_update_nodes_done by (assumption || lia);
        rewrite Hc; cbn [andb];
        destruct (accel_after_bound p node_values (S k) (acceleration st)) as [a' Ha'];
        try (rewrite Ha; eauto); rewrite Ha'; reflexivity.
Qed.

Lemma length_node_values_at (p : Params) (n : nat) : length (node_values_at p n) = nx p.
Proof. unfold node_values_at. rewrite length_map. apply length_nodes. Qed.

(** What one iteration of the time loop does, in closed form. *)
Lemma time_step_spec (p : Params) (st : State) (n : nat) :
  shaped p st -> n < time_steps p ->
  time_step p st n
  = if has_boundary_node p && bool_decide (length (u_applied p) <= n)
    then Raise IndexError
    else match nx p, accel_after p (node_values_at p n) 1 (acceleration st) with
         | S _, None => Raise NameError
         | _, _ =>
             if c_undefined p && existsb (has_bond p) (seq 0 (nx p))
             then Raise ZeroDivisionError
             else Ok (rotate (nodes_done p n (node_values_at p n) (nx p) st))
         end.
Proof.
  intros Hs Hn. unfold time_step. rewrite boundary_loop_spec.
  destruct (has_boundary_node p && bool_decide (length (u_applied p) <= n));
    [reflexivity|].
  run_bind. rewrite nodes_loop_spec by (assumption || apply length_node_values_at || lia).
  destruct (nx p) as [|m];
    [|destruct (accel_after p (node_values_at p n) 1 (acceleration st)); [|reflexivity]];
    destruct (c_undefined p && existsb (has_bond p) _); reflexivity.
Qed.

Lemma shaped_initial (p : Params) : shaped p (initial_state p).
Proof.
  unfold shaped, initial_state, zeros. simpl. rewrite !repeat_length.
  repeat split. apply Forall_forall. intros row Hrow.
  apply repeat_spec in Hrow. subst row. apply repeat_length.
Qed.

Lemma shaped_nodes_done (p : Params) (n : nat) (node_values : list Qc) (k : nat) (st : State) :
  shaped p st -> n < time_steps p -> k <= nx p ->
  shaped p (nodes_done p n node_values k st).
Proof.
  intros Hs Hn Hk. destruct (shaped_row p st n Hs Hn) as (row & Hrow & Hrowlen).
  destruct Hs as (Hc & Hf & Hp & Hsol & Hrows).
  unfold shaped, nodes_done. simpl. rewrite Hrow. simpl.
  rewrite length_app, length_map, length_seq, length_drop, length_insert.
  repeat split; try assumption; try lia.
  apply Forall_insert; [assumption|].
  rewrite length_app, length_take, length_drop. lia.
Qed.

Lemma shaped_rotate (p : Params) (st : State) : shaped p st -> shaped p (rotate st).
Proof. intros (Hc & Hf & Hp & Hsol & Hrows). unfold shaped, rotate. simpl. tauto. Qed.

Lemma time_step_shaped (p : Params) (st st' : State) (n : nat) :
  shaped p st -> n < time_steps p -> time_step p st n = Ok st' -> shaped p st'.
Proof.
  intros Hs Hn. rewrite time_step_spec by assumption.
  destruct (has_boundary_node p && bool_decide (length (u_applied p) <= n));
    [discriminate|].
  assert (Hd : shaped p (rotate (nodes_done p n (node_values_at p n) (nx p) st))).
  { apply shaped_rotate, shaped_nodes_done; (assumption || lia). }
  destruct (c_undefined p && existsb (has_bond p) (seq 0 (nx p)));
    destruct (nx p);
    try destruct (accel_after p (node_values_at p n) 1 (acceleration st));
    try discriminate; intros [= <-]; exact Hd.
Qed.

(** ** The integrator and the recorder *)

Lemma no_zero_division_prefix (p : Params) (k : nat) :
  k <= nx p ->
  c_undefined p && existsb (has_bond p) (seq 0 (nx p)) = false ->
  c_undefined p && existsb (has_bond p) (seq 0 k) = false.
Proof.
  intros Hk H. destruct (c_undefined p); [|reflexivity]. cbn [andb] in *.
  replace (nx p) with (k + (nx p - k)) in H by lia.
  rewrite seq_app, existsb_app in H. apply orb_false_iff in H. tauto.
Qed.

Lemma time_step_ok_inv (p : Params) (st st' : State) (n : nat) :
  shaped p st -> n < time_steps p -> time_step p st n = Ok st' ->
  boundary_loop p n = Ok (node_values_at p n)
  /\ st' = rotate (nodes_done p n (node_values_at p n) (nx p) st)
  /\ (forall k, k <= nx p ->
        nodes_loop p n (node_values_at p n) k st
        = Ok (nodes_done p n (node_values_at p n) k st))
  /\ (forall x, x < nx p ->
        is_Some (accel_after p (node_values_at p n) (S x) (acceleration st))).
Proof.
  intros Hs Hn. rewrite time_step_spec, boundary_loop_spec by assumption.
  destruct (has_boundary_node p && bool_decide (length (u_applied p) <= n));
    [discriminate|].
  intros H.
  assert (Hz : c_undefined p && existsb (has_bond p) (seq 0 (nx p)) = false
               /\ (0 < nx p ->
                   is_Some (accel_after p (node_values_at p n) 1 (acceleration st)))
               /\ st' = rotate (nodes_done p n (node_values_at p n) (nx p) st)).
  { destruct (c_undefined p && existsb (has_bond p) (seq 0 (nx p)));
      destruct (nx p) as [|m];
      try destruct (accel_after p (node_values_at p n) 1 (acceleration st)) as [a|];
      try discriminate; injection H as <-;
      (split; [reflexivity|]); (split; [|reflexivity]); intros H; (lia || eauto). }
  destruct Hz as (Hz & Hacc & ->).
  split; [reflexivity|]. split; [reflexivity|]. split.
  - intros k Hk.
    rewrite nodes_loop_spec by (assumption || apply length_node_values_at).
    rewrite (no_zero_division_prefix p k Hk Hz).
    destruct k as [|k]; [reflexivity|].
    destruct (Hacc ltac:(lia)) as [a ->]. reflexivity.
  - intros x Hx. apply accel_after_bound, Hacc. lia.
Qed.

(** C4.  A step that completes has computed, for every point [i],
    [u_future[i] = acceleration * del_T**2 + 2 * u_current[i] - u_previous[i]]
    with the value [acceleration] holds once the loop has gone through node
    [i]; it has stored the current field as it was before the update in row
    [n] of the solution; and it ends with previous = the old current and
    current = future. *)
Theorem central_difference_step (p : Params) (st st' : State) (n : nat) :
  shaped p st -> n < time_steps p -> time_step p st n = Ok st' ->
  (forall i u_cur u_prev,
      u_vector_at_current_time_step st !! i = Some u_cur ->
      u_vector_at_previous_time_step st !! i = Some u_prev ->
      exists node_values st_i a,
        boundary_loop p n = Ok node_values
        /\ nodes_loop p n node_values (S i) st = Ok st_i
        /\ acceleration st_i = Some a
        /\ u_vector_at_future_time_step st' !! i
           = Some (a * del_T p ^ 2 + 2 * u_cur - u_prev)%Qc)
  /\ u_vector_solution st' !! n = Some (u_vector_at_current_time_step st)
  /\ u_vector_at_previous_time_step st' = u_vector_at_current_time_step st
  /\ u_vector_at_current_time_step st' = u_vector_at_future_time_step st'.
Proof.
  intros Hs Hn Hstep.
  destruct (time_step_ok_inv p st st' n Hs Hn Hstep) as (Hnv & -> & Hloop & Hacc).
  destruct (shaped_row p st n Hs Hn) as (row & Hrow & Hrowlen).
  pose proof Hs as (Hc & Hf & Hp & Hsol & Hrows).
  split; [|split; [|split; reflexivity]].
  - intros i u_cur u_prev Hcur Hprev.
    assert (Hi : i < nx p) by (apply lookup_lt_Some in Hcur; lia).
    destruct (Hacc i Hi) as [a Ha].
    exists (node_values_at p n), (nodes_done p n (node_values_at p n) (S i) st), a.
    split; [exact Hnv|]. split; [|split].
    + apply Hloop. lia.
    + exact Ha.
    + cbn [rotate nodes_done u_vector_at_future_time_step].
      rewrite lookup_app_l by (rewrite length_map, length_seq; exact Hi).
      rewrite list_lookup_fmap, lookup_seq_lt by exact Hi.
      cbn [fmap option_fmap option_map Nat.add]. unfold future_value.
      rewrite Ha, Hcur, Hprev. reflexivity.
  - cbn [rotate nodes_done u_vector_solution]. rewrite Hrow. cbn [default from_option id].
    rewrite list_lookup_insert_eq by lia.
    rewrite firstn_all2 by lia. rewrite drop_ge by lia. rewrite app_nil_r. reflexivity.
Qed.

(** ** Failure of a step *)

Lemma time_step_cases (p : Params) (st : State) (n : nat) :
  shaped p st -> n < time_steps p ->
  let index_error := has_boundary_node p = true /\ length (u_applied p) <= n in
  let name_error :=
    0 < nx p /\ acceleration st = None /\ length (neighbor_ids p 0) <= 1 in
  let zero_division :=
    c_undefined p = true /\ exists x, x < nx p /\ has_bond p x = true in
  (index_error /\ time_step p st n = Raise IndexError)
  \/ (~ index_error /\ name_error /\ time_step p st n = Raise NameError)
  \/ (~ index_error /\ ~ name_error /\ zero_division
      /\ time_step p st n = Raise ZeroDivisionError)
  \/ (~ index_error /\ ~ name_error /\ ~ zero_division
      /\ exists st', time_step p st n = Ok st').
Proof.
  intros Hs Hn. cbv zeta. rewrite time_step_spec by assumption.
  pose proof (accel_after_1_unbound p (node_values_at p n) (acceleration st)) as Hu.
  rewrite bond_indices_0_nil in Hu.
  assert (Hidx : has_boundary_node p && bool_decide (length (u_applied p) <= n) = true
                 <-> has_boundary_node p = true /\ length (u_applied p) <= n).
  { rewrite andb_true_iff, bool_decide_eq_true. reflexivity. }
  assert (Hz : c_undefined p && existsb (has_bond p) (seq 0 (nx p)) = true
               <-> c_undefined p = true /\ exists x, x < nx p /\ has_bond p x = true).
  { rewrite andb_true_iff, existsb_exists. split; intros (H1 & x & H2 & H3).
    - split; [exact H1|]. exists x. apply in_seq in H2. split; [lia | exact H3].
    - split; [exact H1|]. exists x. split; [apply in_seq; lia | exact H3]. }
  destruct (has_boundary_node p && bool_decide (length (u_applied p) <= n)).
  - left. split; [apply Hidx; reflexivity | reflexivity].
  - assert (Hno : ~ (has_boundary_node p = true /\ length (u_applied p) <= n)).
    { intros H. apply Hidx in H. discriminate. }
    right.
    assert (Hname : nx p = 0
                    \/ is_Some (accel_after p (node_values_at p n) 1 (acceleration st)) ->
                    ~ (0 < nx p /\ acceleration st = None
                       /\ length (neighbor_ids p 0) <= 1)).
    { intros [H | [a Ha]] (H1 & H2 & H3); [lia|].
      assert (E : accel_after p (node_values_at p n) 1 (acceleration st) = None)
        by (apply Hu; tauto).
      congruence. }
    destruct (nx p) as [|m] eqn:Hnx;
      [|destruct (accel_after p (node_values_at p n) 1 (acceleration st)) as [a|] eqn:Ha].
    + right. destruct (c_undefined p && existsb (has_bond p) (seq 0 0)) eqn:Hzd.
      * left. split; [exact Hno|]. split; [apply Hname; tauto|].
        split; [apply Hz; reflexivity | reflexivity].
      * right. split; [exact Hno|]. split; [apply Hname; tauto|].
        split; [intros H; apply Hz in H; discriminate | eauto].
    + right. destruct (c_undefined p && existsb (has_bond p) (seq 0 (S m))) eqn:Hzd.
      * left. split; [exact Hno|]. split; [apply Hname; eauto|].
        split; [apply Hz; reflexivity | reflexivity].
      * right. split; [exact Hno|]. split; [apply Hname; eauto|].
        split; [intros H; apply Hz in H; discriminate | eauto].
    + left. split; [exact Hno|]. split; [|reflexivity].
      destruct (proj1 Hu eq_refl) as (H1 & H2). split; [lia | tauto].
Qed.

(** C8, as the code has it.  A zero-length bond is not a failure of a step:
    the stretch is computed with NumPy, whose division by zero does not
    raise, so a step that raises [ZeroDivisionError] has raised it in the
    division of Python floats that computes [c].  And a step fails where no
    bond has zero length: it raises [IndexError] exactly when some node is
    in a boundary layer and [n] is past the end of [u_applied]. *)
Theorem time_step_failures (p : Params) (st : State) (n : nat) :
  shaped p st -> n < time_steps p ->
  (time_step p st n = Raise IndexError
   <-> has_boundary_node p = true /\ length (u_applied p) <= n)
  /\ (time_step p st n = Raise ZeroDivisionError -> c p = Raise ZeroDivisionError).
Proof.
  intros Hs Hn.
  destruct (time_step_cases p st n Hs Hn)
    as [(Hi & E) | [(Hi & _ & E) | [(Hi & _ & (Hc & _) & E) | (Hi & _ & _ & st' & E)]]];
    rewrite E; (split; [split; [try discriminate; tauto | tauto] |]);
    try discriminate.
  intros _. rewrite c_spec, Hc. reflexivity.
Qed.

(** ** What the accelerations depend on *)

(** The value of [acceleration] at the start of a neighbour loop is
    forgotten as soon as the loop goes through one bond. *)
Lemma neighbor_fold_entry (p : Params) (node_values : list Qc) (x : nat)
    (l : list nat) (s : Qc) (acc1 acc2 : option Qc) :
  List.filter (fun pidx => negb (pidx =? x)) l <> [] ->
  fold_left (neighbor_step p node_values x) l (s, acc1)
  = fold_left (neighbor_step p node_values x) l (s, acc2).
Proof.
  revert s. induction l as [|pidx l IH]; intros s; simpl; [congruence|].
  unfold neighbor_step at 2 4. destruct (pidx =? x); simpl; [apply IH | reflexivity].
Qed.

Lemma accel_after_entry (p : Params) (node_values : list Qc) (k : nat)
    (acc1 acc2 : option Qc) :
  bond_indices p 0 <> [] ->
  accel_after p node_values (S k) acc1 = accel_after p node_values (S k) acc2.
Proof.
  intros H. induction k as [|k IH].
  - unfold accel_after, neighbor_vars. simpl fold_left at 1 3.
    rewrite (neighbor_fold_entry p node_values 0 _ _ acc1 acc2 H). reflexivity.
  - rewrite !(accel_after_S _ _ (S k)), IH. reflexivity.
Qed.

Lemma boundary_loop_ok (p : Params) (n : nat) (node_values : list Qc) :
  boundary_loop p n = Ok node_values -> node_values = node_values_at p n.
Proof.
  rewrite boundary_loop_spec.
  destruct (has_boundary_node p && bool_decide (length (u_applied p) <= n));
    [discriminate | congruence].
Qed.

Lemma node_values_at_same_value (p : Params) (n1 n2 : nat) :
  u_applied p !! n1 = u_applied p !! n2 -> node_values_at p n1 = node_values_at p n2.
Proof. intros H. unfold node_values_at. rewrite H. reflexivity. Qed.

(** C9.  Let two runs of the same parameters reach the node loop, at steps
    that have the same boundary value, with current, previous and future
    displacement fields and solution histories that differ in any way.
    Then they compute the same acceleration for every node [i], and fail
    alike if they fail.  The one thing carried over from before the step
    is the variable [acceleration] itself, which the loop of node 0
    overwrites as soon as that node has a bond to go through; the two runs
    are taken to agree on it where it has none. *)
Theorem acceleration_independent_of_displacements
    (p : Params) (n1 n2 : nat) (values1 values2 : list Qc) (st1 st2 : State) (i : nat) :
  shaped p st1 -> shaped p st2 -> n1 < time_steps p -> n2 < time_steps p ->
  boundary_loop p n1 = Ok values1 ->
  boundary_loop p n2 = Ok values2 ->
  u_applied p !! n1 = u_applied p !! n2 ->
  i < nx p ->
  acceleration st1 = acceleration st2 \/ 2 <= length (neighbor_ids p 0) ->
  match nodes_loop p n1 values1 (S i) st1, nodes_loop p n2 values2 (S i) st2 with
  | Ok s1, Ok s2 => acceleration s1 = acceleration s2
  | Raise e1, Raise e2 => e1 = e2
  | _, _ => False
  end.
Proof.
  intros Hs1 Hs2 Hn1 Hn2 Hv1 Hv2 Hu Hi Hacc.
  apply boundary_loop_ok in Hv1, Hv2. subst values1 values2.
  rewrite (node_values_at_same_value p n1 n2 Hu).
  rewrite !nodes_loop_spec by (assumption || apply length_node_values_at || lia).
  assert (E : accel_after p (node_values_at p n2) (S i) (acceleration st1)
              = accel_after p (node_values_at p n2) (S i) (acceleration st2)
              /\ accel_after p (node_values_at p n2) 1 (acceleration st1)
                 = accel_after p (node_values_at p n2) 1 (acceleration st2)).
  { destruct Hacc as [-> | Hc]; [split; reflexivity|].
    assert (Hb : bond_indices p 0 <> []) by (rewrite bond_indices_0_nil; lia).
    split; apply accel_after_entry, Hb. }
  destruct E as (E & E1). rewrite E1.
  destruct (accel_after p (node_values_at p n2) 1 (acceleration st2)); [|reflexivity].
  destruct (c_undefined p && existsb (has_bond p) (seq 0 (S i))); [reflexivity|].
  cbn [nodes_done acceleration]. exact E.
Qed.

(** ** The whole loop *)

Lemma run_steps_S (p : Params) (k : nat) :
  run_steps p (S k) = run_steps p k ≫= fun st => time_step p st k.
Proof. unfold run_steps. rewrite for_each_seq_S. reflexivity. Qed.

Lemma run_steps_shaped (p : Params) (k : nat) (st : State) :
  k <= time_steps p -> run_steps p k = Ok st -> shaped p st.
Proof.
  revert st. induction k as [|k IH]; intros st Hk.
  - intros [= <-]. apply shaped_initial.
  - rewrite run_steps_S. intros H. apply bind_ok in H. destruct H as (st0 & H0 & H1).
    apply (time_step_shaped p st0 st k); [apply IH; (lia || assumption) | lia | exact H1].
Qed.

Lemma length_u_applied_le (p : Params) : length (u_applied p) <= time_steps p.
Proof.
  rewrite length_u_applied. pose proof (Nat.div_mod_eq (time_steps p) 3). lia.
Qed.

(** With a bond at the first node and a non-zero divisor in [c], every
    step that has a boundary value completes. *)
Lemma run_steps_ok (p : Params) (k : nat) :
  2 <= length (neighbor_ids p 0) -> c_undefined p = false ->
  k <= length (u_applied p) ->
  exists st, run_steps p k = Ok st.
Proof.
  intros Hc Hd. pose proof (length_u_applied_le p) as Hle.
  induction k as [|k IH]; intros Hk; [eexists; reflexivity|].
  destruct IH as [st Hst]; [lia|].
  rewrite run_steps_S, Hst. simpl.
  assert (Hs : shaped p st) by (apply (run_steps_shaped p k); (lia || assumption)).
  destruct (time_step_cases p st k Hs ltac:(lia))
    as [((_ & HA) & _)
       | [(_ & (_ & _ & HB) & _) | [(_ & _ & (HC & _) & _) | (_ & _ & _ & st' & ->)]]];
    [lia | lia | congruence | eauto].
Qed.

Lemma run_split (p : Params) (k : nat) :
  k <= time_steps p ->
  run p = run_steps p k ≫= for_each (time_step p) (seq k (time_steps p - k)).
Proof.
  intros Hk. unfold run, run_steps.
  replace (time_steps p) with (k + (time_steps p - k)) at 1 by lia.
  rewrite seq_app, for_each_app. reflexivity.
Qed.

(** The notebook's own run completes its 150 steps. *)
Lemma notebook_run_completes : exists st, run notebook = Ok st.
Proof.
  unfold run. replace (time_steps notebook) with 150 by (vm_compute; reflexivity).
  apply run_steps_ok; vm_compute; (reflexivity || lia).
Qed.

(** C10.  When [time_steps] is not a multiple of 3 and some node is in a
    boundary layer, [u_applied] has [3 * (time_steps // 3)] entries, fewer
    than the loop has iterations; the step of that index raises
    [IndexError] in whatever state it starts, so the loop never completes;
    and when the first node has a bond to go through and the divisor of [c]
    is not zero, all the steps before that one complete and the loop ends
    on this [IndexError]. *)
Theorem remainder_steps_fail (p : Params) :
  has_boundary_node p = true ->
  time_steps p mod 3 <> 0 ->
  length (u_applied p) = 3 * (time_steps p / 3)
  /\ 3 * (time_steps p / 3) < time_steps p
  /\ (forall st, shaped p st -> time_step p st (3 * (time_steps p / 3)) = Raise IndexError)
  /\ is_ok (run p) = false
  /\ (2 <= length (neighbor_ids p 0) ->
      (np_pi * horizon p ^ 4)%Qc <> 0%Qc ->
      (exists st, run_steps p (3 * (time_steps p / 3)) = Ok st)
      /\ run p = Raise IndexError).
Proof.
  intros Hb Hmod.
  pose proof (length_u_applied p) as Hlen.
  pose proof (Nat.div_mod_eq (time_steps p) 3) as Hsum.
  set (k := 3 * (time_steps p / 3)) in *.
  assert (Hk : k < time_steps p) by lia.
  assert (Hstep : forall st, shaped p st -> time_step p st k = Raise IndexError).
  { intros st Hs. rewrite time_step_spec, Hb by assumption.
    rewrite bool_decide_eq_true_2 by lia. reflexivity. }
  assert (Hund : (np_pi * horizon p ^ 4)%Qc <> 0%Qc -> c_undefined p = false).
  { intros H. unfold c_undefined. apply bool_decide_eq_false_2, H. }
  assert (Hrest : forall st, shaped p st ->
            for_each (time_step p) (seq k (time_steps p - k)) st = Raise IndexError).
  { intros st Hs. replace (time_steps p - k) with (S (time_steps p - k - 1)) by lia.
    simpl. rewrite (Hstep st Hs). reflexivity. }
  split; [exact Hlen|]. split; [exact Hk|]. split; [exact Hstep|]. split.
  - rewrite (run_split p k) by lia.
    destruct (run_steps p k) as [st|e] eqn:E; [|reflexivity].
    simpl. rewrite Hrest; [reflexivity|].
    apply (run_steps_shaped p k); (lia || assumption).
  - intros Hc Hd. destruct (run_steps_ok p k Hc (Hund Hd) ltac:(lia)) as [st Hst].
    split; [eauto|].
    rewrite (run_split p k), Hst by lia. simpl. apply Hrest.
    apply (run_steps_shaped p k); (lia || assumption).
Qed.

(** ** The notebook's boundary layers *)

Lemma lookup_repeat {A} (a : A) (k i : nat) : i < k -> repeat a k !! i = Some a.
Proof.
  revert i. induction k as [|k IH]; intros i Hi; [lia|].
  destruct i as [|i]; simpl; [reflexivity | apply IH; lia].
Qed.

Lemma notebook_u_applied_lookup (n : nat) :
  n < 150 ->
  u_applied notebook !! n
  = Some (if n <? 50 then lit 2e-2 else if n <? 100 then (- lit 2e-2)%Qc else 0%Qc).
Proof.
  intros Hn. rewrite u_applied_repeat.
  replace (time_steps notebook / 3) with 50 by (vm_compute; reflexivity).
  change (u0 notebook) with (lit 2e-2).
  destruct (Nat.ltb_spec n 50) as [H1|H1].
  - rewrite lookup_app_l by (rewrite repeat_length; lia). apply lookup_repeat. lia.
  - rewrite lookup_app_r by (rewrite repeat_length; lia). rewrite repeat_length.
    destruct (Nat.ltb_spec n 100) as [H2|H2].
    + rewrite lookup_app_l by (rewrite repeat_length; lia). apply lookup_repeat. lia.
    + rewrite lookup_app_r by (rewrite repeat_length; lia). rewrite repeat_length.
      apply lookup_repeat. lia.
Qed.

(** C6, as the code has it.  With the notebook's values (L = 15, seven
    nodes, horizon 3.014 * (15 / 7), 150 steps) the nodes within the horizon
    of a bar end are all but the middle one: three at each end, not two.
    At every step these six receive the boundary value of the step, which is
    +0.02 for steps 0 to 49, -0.02 for steps 50 to 99 and 0 for steps 100
    to 149, and the middle node has 0. *)
Theorem notebook_boundary_layer (n : nat) :
  n < 150 ->
  let v := if n <? 50 then lit 2e-2 else if n <? 100 then (- lit 2e-2)%Qc else 0%Qc in
  time_steps notebook = 150
  /\ boundary_loop notebook n = Ok [v; v; v; 0%Qc; v; v; v]
  /\ (forall i node,
         nodes notebook !! i = Some node ->
         (Qcabs (node - start_position notebook) <= horizon notebook
          \/ Qcabs (node - end_position notebook) <= horizon notebook)%Qc
         <-> i <> 3).
Proof.
  intros Hn v. split; [vm_compute; reflexivity|]. split.
  - rewrite boundary_loop_spec.
    replace (length (u_applied notebook)) with 150 by (vm_compute; reflexivity).
    destruct (bool_decide_reflect (150 <= n)) as [H|_]; [lia|].
    rewrite andb_false_r. f_equal. unfold node_values_at.
    rewrite (notebook_u_applied_lookup n Hn). fold v. cbn [default from_option id].
    generalize v. intros w.
    assert (E : map (in_boundary_layer notebook) (nodes notebook)
                = [true; true; true; false; true; true; true])
      by (vm_compute; reflexivity).
    revert E. generalize (in_boundary_layer notebook).
    destruct (nodes notebook) as [|x0 [|x1 [|x2 [|x3 [|x4 [|x5 [|x6 [|x7 l]]]]]]]];
      intros f E; simpl in E; try discriminate E.
    injection E as E0 E1 E2 E3 E4 E5 E6. simpl.
    rewrite E0, E1, E2, E3, E4, E5, E6. reflexivity.
  - intros i node Hnode. rewrite <- in_boundary_layer_iff.
    assert (E : map (in_boundary_layer notebook) (nodes notebook)
                = [true; true; true; false; true; true; true])
      by (vm_compute; reflexivity).
    assert (H : map (in_boundary_layer notebook) (nodes notebook) !! i
                = Some (in_boundary_layer notebook node)).
    { change (map ?f ?l) with (f <$> l). rewrite list_lookup_fmap, Hnode. reflexivity. }
    rewrite E in H.
    destruct i as [|[|[|[|[|[|[|i]]]]]]]; simpl in H; try discriminate H;
      injection H as <-; split; (lia || discriminate || reflexivity || tauto).
Qed.

Lemma notebook_boundary_layer_witness :
  time_steps notebook = 150
  /\ boundary_loop notebook 60
     = Ok [(- lit 2e-2)%Qc; (- lit 2e-2)%Qc; (- lit 2e-2)%Qc; 0%Qc;
           (- lit 2e-2)%Qc; (- lit 2e-2)%Qc; (- lit 2e-2)%Qc]
  /\ (forall i node,
         nodes notebook !! i = Some node ->
         (Qcabs (node - start_position notebook) <= horizon notebook
          \/ Qcabs (node - end_position notebook) <= horizon notebook)%Qc
         <-> i <> 3).
Proof. apply (notebook_boundary_layer 60). lia. Defined.

(** C6 as stated fails: the third node from each end, at -2.5 and at 2.5,
    receives the boundary value too. *)
Lemma third_node_receives_boundary_value :
  nodes notebook !! 2 = Some (lit (-2.5))
  /\ nodes notebook !! 4 = Some (lit 2.5)
  /\ boundary_loop notebook 0 ≫= (fun node_values => py_get node_values 2) = Ok (lit 2e-2)
  /\ boundary_loop notebook 0 ≫= (fun node_values => py_get node_values 4) = Ok (lit 2e-2)
  /\ lit 2e-2 <> 0%Qc.
Proof.
  repeat split; try discriminate; vm_compute;
    try reflexivity; f_equal; apply Qc_is_canon; reflexivity.
Qed.

(** ** The field the forces are evaluated from *)

Lemma node_values_at_lookup (p : Params) (n i : nat) (node : Qc) :
  nodes p !! i = Some node ->
  node_values_at p n !! i
  = Some (if in_boundary_layer p node then default 0%Qc (u_applied p !! n) else 0%Qc).
Proof.
  intros H. unfold node_values_at. change (map ?f ?l) with (f <$> l).
  rewrite list_lookup_fmap, H. reflexivity.
Qed.

Lemma has_boundary_node_intro (p : Params) (i : nat) (node : Qc) :
  nodes p !! i = Some node -> in_boundary_layer p node = true ->
  has_boundary_node p = true.
Proof.
  intros H L. unfold has_boundary_node. apply existsb_exists. exists node.
  split; [|exact L]. apply list_elem_of_In, list_elem_of_lookup. eauto.
Qed.

(** C1, at the notebook's own values.  The claim has the forces evaluated
    from the current displacement field with the boundary value written
    over its boundary entries; the code's comments say the same of [eta],
    "the difference in displacement".  The code evaluates them from
    [node_values], a fresh field of zeros with the boundary value at the
    nodes of the boundary layers, and never writes the boundary value into
    the current field.

    When step 1 begins the middle node has moved by more than 1 and node 0
    is below the boundary value 0.02.  The field the forces are evaluated
    from has 0 at the middle node and 0.02 at node 0, where the field of
    the claim ([prescribed_current_field]) has the current displacement at
    the middle node.  For the middle node, step 1 computes the acceleration
    that step 0 computed from the initial zero field; run on the field of
    the claim, the same node loop computes another one.  And step 1 records
    the current field, and rotates it into the previous one, as the step
    found it. *)
Theorem forces_ignore_the_current_field :
  match run_steps notebook 1, boundary_loop notebook 0, boundary_loop notebook 1 with
  | Ok st, Ok values0, Ok values1 =>
      (exists u, u_vector_at_current_time_step st !! 3 = Some u /\ (1 < u)%Qc)
      /\ (exists u, u_vector_at_current_time_step st !! 0 = Some u /\ (u < lit 2e-2)%Qc)
      /\ values1 !! 3 = Some 0%Qc
      /\ values1 !! 0 = Some (lit 2e-2)
      /\ prescribed_current_field notebook 1 st !! 3 = u_vector_at_current_time_step st !! 3
      /\ match nodes_loop notebook 0 values0 4 (initial_state notebook),
               nodes_loop notebook 1 values1 4 st,
               nodes_loop notebook 1 (prescribed_current_field notebook 1 st) 4 st with
         | Ok st0, Ok st1, Ok st_claim =>
             acceleration st1 = acceleration st0
             /\ acceleration st_claim <> acceleration st1
         | _, _, _ => False
         end
      /\ match time_step notebook st 1 with
         | Ok st' =>
             u_vector_solution st' !! 1 = Some (u_vector_at_current_time_step st)
             /\ u_vector_at_previous_time_step st' = u_vector_at_current_time_step st
         | Raise _ => False
         end
  | _, _, _ => False
  end.
Proof.
  destruct (run_steps notebook 1) as [st|e] eqn:E; vm_compute in E; [|discriminate E].
  injection E as <-.
  destruct (boundary_loop notebook 0) as [values0|e] eqn:E0; vm_compute in E0;
    [|discriminate E0].
  injection E0 as <-.
  destruct (boundary_loop notebook 1) as [values1|e] eqn:E1; vm_compute in E1;
    [|discriminate E1].
  injection E1 as <-.
  split; [|split; [|split; [|split; [|split; [|split]]]]].
  - eexists. split; [reflexivity|]. vm_compute. reflexivity.
  - eexists. split; [reflexivity|]. vm_compute. reflexivity.
  - reflexivity.
  - vm_compute. f_equal. apply Qc_is_canon. reflexivity.
  - vm_compute. reflexivity.
  - vm_compute. split.
    + first [reflexivity | f_equal; apply Qc_is_canon; reflexivity].
    + intros H. apply (f_equal (fmap this)) in H. vm_compute in H. discriminate H.
  - vm_compute. split; first [reflexivity | repeat f_equal; apply Qc_is_canon; reflexivity].
Qed.

(** ** Which bonds the neighbour loop goes through *)

(** C2, at the notebook's own values.  The points within the horizon of
    node 6 are 4, 5 and 6, yet its neighbour loop goes through the bonds to
    0, 1 and 2: the loop variable counts the neighbours and is used as the
    identifier itself.  At step 0 the acceleration left by node 6 is
    therefore made of three terms, where the sum over the points within the
    horizon has two.  For node 3 the loop goes through 0, 1, 2 and 4 where
    the points within the horizon are 1, 2, 4 and 5, and it takes
    [ksi = 7] for the bond to node 0, whose coordinate -7.5 [int] truncates
    to -7, where the reference distance is 7.5. *)
Theorem neighbour_loop_goes_by_position :
  neighbor_ids notebook 6 = [4; 5; 6]
  /\ bond_indices notebook 6 = [0; 1; 2]
  /\ match boundary_loop notebook 0 with
     | Ok node_values =>
         match nodes_loop notebook 0 node_values 7 (initial_state notebook) with
         | Ok st =>
             acceleration st = Some (lit 3 * body_force / rho notebook)%Qc
             /\ specified_sum_term notebook node_values 6 = (lit 2 * body_force)%Qc
         | Raise _ => False
         end
     | Raise _ => False
     end
  /\ neighbor_ids notebook 3 = [1; 2; 3; 4; 5]
  /\ bond_indices notebook 3 = [0; 1; 2; 4]
  /\ ksi_at notebook 3 0 = lit 7
  /\ nodes notebook !! 0 = Some (lit (-7.5))
  /\ nodes notebook !! 3 = Some 0%Qc
  /\ (horizon notebook < lit 7)%Qc.
Proof.
  split; [vm_compute; reflexivity|]. split; [vm_compute; reflexivity|].
  split; [|split; [vm_compute; reflexivity|]; split; [vm_compute; reflexivity|]].
  - destruct (boundary_loop notebook 0) as [node_values|e] eqn:E; vm_compute in E;
      [|discriminate E].
    injection E as <-.
    match goal with
    | |- match ?r with _ => _ end =>
        destruct r as [st|e] eqn:E; vm_compute in E; [|discriminate E]
    end.
    injection E as <-. split; qc_values.
  - repeat split; qc_values.
Qed.

(** ** Damage *)

(** C3, as the code has it.  In every step, the iteration of the neighbour
    loop for the bond from node [x] to position [pidx] adds to [sum_term]
    the term [bond_force] of that step, computed from the [ksi] of the bond
    and the [eta] of the step's [node_values], and [9.8e-9].  When the
    stretch of that step exceeds [s0] the term is the product with the
    damage factor 0, and when it is at most [s0] it is the product with the
    damage factor 1.  Nothing of an earlier step enters: the iteration
    reads the parameters, the [node_values] of its own step and the
    running [sum_term], and no state of the run.  (The bond has a length
    and is not collapsed: the divisors [ksi] and [ksi + eta] are not
    zero.) *)
Theorem damage_follows_the_stretch_of_the_step
    (p : Params) (n x pidx : nat) (node_values : list Qc) (node xi cv sum_term : Qc)
    (acc : option Qc) :
  boundary_loop p n = Ok node_values ->
  nodes p !! x = Some node ->
  node_values !! x = Some xi ->
  pidx < nx p -> pidx <> x ->
  c p = Ok cv ->
  ksi_at p x pidx <> 0%Qc ->
  (ksi_at p x pidx + eta_at node_values x pidx)%Qc <> 0%Qc ->
  let ksi := ksi_at p x pidx in
  let eta := eta_at node_values x pidx in
  let s := stretch ksi eta in
  let term := bond_force p cv ksi eta in
  neighbor_body p node_values xi (Z.of_nat x) node 1%Qc (sum_term, acc) pidx
  = Ok ((sum_term + term + body_force)%Qc, Some ((sum_term + term + body_force) / rho p)%Qc)
  /\ ((s0 p < s)%Qc -> term = ((ksi + eta) / Qcabs (ksi + eta) * cv * s * 0 * vol)%Qc)
  /\ ((s <= s0 p)%Qc -> term = ((ksi + eta) / Qcabs (ksi + eta) * cv * s * 1 * vol)%Qc).
Proof.
  intros Hb Hnode Hxi Hp Hne Hc Hksi Hlen' ksi eta s term.
  assert (Hlen : length node_values = nx p).
  { apply boundary_loop_ok in Hb. subst node_values. apply length_node_values_at. }
  rewrite c_spec in Hc. destruct (c_undefined p) eqn:Hu; [discriminate Hc|].
  injection Hc as <-.
  split; [|split].
  - rewrite (neighbor_body_spec p node_values x node xi _ pidx Hnode Hxi Hlen Hp), Hu.
    cbn [andb]. unfold neighbor_step.
    destruct (Nat.eqb_spec pidx x) as [E|_]; [contradiction|]. reflexivity.
  - intros Hs. subst term s. unfold bond_force, mu, gtb.
    rewrite bool_decide_eq_true_2 by exact Hs. rewrite of_int_0. reflexivity.
  - intros Hs. subst term s. unfold bond_force, mu, gtb.
    rewrite bool_decide_eq_false_2 by (apply Qcle_not_lt; exact Hs).
    rewrite of_int_1. reflexivity.
Qed.

Lemma damage_follows_the_stretch_of_the_step_witness :
  let ksi := ksi_at stretched 3 4 in
  let eta := eta_at (node_values_at stretched 50) 3 4 in
  let s := stretch ksi eta in
  let term := bond_force stretched (micro_modulus stretched) ksi eta in
  neighbor_body stretched (node_values_at stretched 50) 0%Qc (Z.of_nat 3) 0%Qc 1%Qc
                (0%Qc, None) 4
  = Ok ((0 + term + body_force)%Qc, Some ((0 + term + body_force) / rho stretched)%Qc)
  /\ ((s0 stretched < s)%Qc
      -> term = ((ksi + eta) / Qcabs (ksi + eta) * micro_modulus stretched * s * 0 * vol)%Qc)
  /\ ((s <= s0 stretched)%Qc
      -> term = ((ksi + eta) / Qcabs (ksi + eta) * micro_modulus stretched * s * 1 * vol)%Qc).
Proof.
  apply (damage_follows_the_stretch_of_the_step stretched 50 3 4).
  - rewrite boundary_loop_spec.
    assert (E : has_boundary_node stretched
                && bool_decide (length (u_applied stretched) <= 50) = false)
      by (vm_compute; reflexivity).
    rewrite E. reflexivity.
  - qc_values.
  - qc_values.
  - vm_compute. lia.
  - lia.
  - rewrite c_spec.
    assert (E : c_undefined stretched = false) by (vm_compute; reflexivity).
    rewrite E. reflexivity.
  - intros H. apply (f_equal this) in H. vm_compute in H. discriminate H.
  - intros H. apply (f_equal this) in H. vm_compute in H. discriminate H.
Defined.

(** C3 as stated fails.  With the boundary displacement 0.2, the bond from
    the middle node to position 4 has a stretch above [s0] at step 0, and
    the iteration of the neighbour loop for it adds nothing but [9.8e-9] to
    [sum_term].  At step 50, after the boundary displacement has changed
    sign, the iteration for the same bond adds a bond force that is not
    zero. *)
Lemma broken_bond_carries_force_again :
  0 < 50 < time_steps stretched
  /\ match boundary_loop stretched 0, boundary_loop stretched 50 with
     | Ok first, Ok later =>
         (s0 stretched < stretch (ksi_at stretched 3 4) (eta_at first 3 4))%Qc
         /\ neighbor_body stretched first 0%Qc 3 0%Qc 1%Qc (0%Qc, None) 4
            = Ok ((0 + 0 + body_force)%Qc, Some ((0 + 0 + body_force) / rho stretched)%Qc)
         /\ match neighbor_body stretched later 0%Qc 3 0%Qc 1%Qc (0%Qc, None) 4 with
            | Ok (sum_term, _) => sum_term <> (0 + 0 + body_force)%Qc
            | Raise _ => False
            end
     | _, _ => False
     end.
Proof.
  split; [vm_compute; lia|].
  destruct (boundary_loop stretched 0) as [first|e] eqn:E0; vm_compute in E0;
    [|discriminate E0].
  injection E0 as <-.
  destruct (boundary_loop stretched 50) as [later|e] eqn:E1; vm_compute in E1;
    [|discriminate E1].
  injection E1 as <-.
  split; [|split].
  - vm_compute. reflexivity.
  - vm_compute. repeat f_equal; apply Qc_is_canon; reflexivity.
  - vm_compute. intros H. apply (f_equal this) in H. vm_compute in H. discriminate H.
Qed.

(** ** A bar with no boundary displacement *)






Lemma of_int_S (k : nat) : of_int (Z.of_nat (S k)) = (of_int (Z.of_nat k) + 1)%Qc.
Proof.
  unfold of_int. rewrite Nat2Z.inj_succ, <- Z.add_1_r, Z2Qc_inj_add, Z2Qc_inj_1.
  reflexivity.
Qed.

(** When the first node has a bond, every node has one. *)
Lemma bonds_everywhere (p : Params) (x : nat) :
  2 <= length (neighbor_ids p 0) -> x < nx p -> bond_indices p x <> [].
Proof.
  intros H0 Hx.
  destruct (lookup_lt_is_Some_2 (nodes p) 0) as [first Hfirst];
    [rewrite length_nodes; lia|].
  destruct (lookup_lt_is_Some_2 (nodes p) x) as [node Hnode];
    [rewrite length_nodes; lia|].
  assert (Hh : (0 <= horizon p)%Qc).
  { destruct (neighbor_ids p 0) as [|j l] eqn:E; [simpl in H0; lia|].
    assert (Hj : In j (neighbor_ids p 0)) by (rewrite E; left; reflexivity).
    apply (neighbor_ids_spec p 0 j first Hfirst) in Hj.
    destruct Hj as (other & _ & Hd).
    apply (Qcle_trans _ (Qcabs (other - first))); [apply Qcabs_nonneg | exact Hd]. }
  assert (Hself : 1 <= length (neighbor_ids p x)).
  { assert (Hin : In x (neighbor_ids p x)).
    { apply (neighbor_ids_spec p x x node Hnode). exists node. split; [exact Hnode|].
      replace (node - node)%Qc with 0%Qc by ring. exact Hh. }
    destruct (neighbor_ids p x); [destruct Hin | simpl; lia]. }
  apply has_bond_iff. unfold has_bond. apply existsb_exists.
  destruct x as [|x].
  - exists 1. split; [apply in_seq; lia | reflexivity].
  - exists 0. split; [apply in_seq; lia | reflexivity].
Qed.

Lemma run_steps_prefix (p : Params) (k j : nat) (st : State) :
  run_steps p k = Ok st -> j <= k -> exists st0, run_steps p j = Ok st0.
Proof.
  revert st. induction k as [|k IH]; intros st Hrun Hj.
  - replace j with 0 by lia. eauto.
  - destruct (Nat.eq_dec j (S k)) as [->|Hne]; [eauto|].
    rewrite run_steps_S in Hrun. apply bind_ok in Hrun. destruct Hrun as (st0 & H0 & _).
    apply (IH st0 H0). lia.
Qed.








(** ** Concrete steps *)

Lemma central_difference_step_witness :
  match time_step notebook (initial_state notebook) 0 with
  | Ok st' =>
      (forall i u_cur u_prev,
          u_vector_at_current_time_step (initial_state notebook) !! i = Some u_cur ->
          u_vector_at_previous_time_step (initial_state notebook) !! i = Some u_prev ->
          exists node_values st_i a,
            boundary_loop notebook 0 = Ok node_values
            /\ nodes_loop notebook 0 node_values (S i) (initial_state notebook) = Ok st_i
            /\ acceleration st_i = Some a
            /\ u_vector_at_future_time_step st' !! i
               = Some (a * del_T notebook ^ 2 + 2 * u_cur - u_prev)%Qc)
      /\ u_vector_solution st' !! 0
         = Some (u_vector_at_current_time_step (initial_state notebook))
      /\ u_vector_at_previous_time_step st'
         = u_vector_at_current_time_step (initial_state notebook)
      /\ u_vector_at_current_time_step st' = u_vector_at_future_time_step st'
  | Raise _ => False
  end.
Proof.
  destruct (time_step notebook (initial_state notebook) 0) as [st'|e] eqn:E.
  - apply (central_difference_step notebook (initial_state notebook) st' 0);
      [apply shaped_initial | vm_compute; lia | exact E].
  - vm_compute in E. discriminate E.
Defined.

Lemma time_step_failures_witness :
  (time_step short_bar (initial_state short_bar) 0 = Raise IndexError
   <-> has_boundary_node short_bar = true /\ length (u_applied short_bar) <= 0)
  /\ (time_step short_bar (initial_state short_bar) 0 = Raise ZeroDivisionError
      -> c short_bar = Raise ZeroDivisionError).
Proof.
  apply (time_step_failures short_bar (initial_state short_bar) 0).
  - apply shaped_initial.
  - vm_compute. lia.
Defined.

(** C8 as stated fails in both directions.  In the bar of length 1 with
    three nodes the loop of node 1 goes through the bond to node 0, whose
    coordinate -0.5 [int] truncates to 0: [ksi = 0], and step 0 completes.
    In the notebook stopped after ten steps no bond has zero length, and
    step 9 raises [IndexError]. *)
Lemma zero_length_bond_is_not_the_failure :
  zero_length_bond short_bar = true
  /\ In 0 (bond_indices short_bar 1)
  /\ ksi_at short_bar 1 0 = 0%Qc
  /\ 0 < time_steps short_bar
  /\ is_ok (time_step short_bar (initial_state short_bar) 0) = true
  /\ zero_length_bond ten_steps = false
  /\ 9 < time_steps ten_steps
  /\ is_ok (run_steps ten_steps 9) = true
  /\ run_steps ten_steps 9 ≫= (fun st => time_step ten_steps st 9) = Raise IndexError.
Proof.
  split; [vm_compute; reflexivity|]. split; [vm_compute; tauto|].
  split; [qc_values|]. split; [vm_compute; lia|].
  split; [vm_compute; reflexivity|]. split; [vm_compute; reflexivity|].
  split; [vm_compute; lia|]. split; vm_compute; reflexivity.
Qed.

Lemma acceleration_independent_of_displacements_witness :
  match run_steps notebook 2, boundary_loop notebook 1, boundary_loop notebook 2 with
  | Ok st2, Ok values1, Ok values2 =>
      match nodes_loop notebook 1 values1 4 (initial_state notebook),
            nodes_loop notebook 2 values2 4 st2 with
      | Ok s1, Ok s2 => acceleration s1 = acceleration s2
      | Raise e1, Raise e2 => e1 = e2
      | _, _ => False
      end
  | _, _, _ => False
  end.
Proof.
  destruct (run_steps notebook 2) as [st2|e] eqn:E2;
    [|vm_compute in E2; discriminate E2].
  destruct (boundary_loop notebook 1) as [values1|e] eqn:Eb1;
    [|vm_compute in Eb1; discriminate Eb1].
  destruct (boundary_loop notebook 2) as [values2|e] eqn:Eb2;
    [|vm_compute in Eb2; discriminate Eb2].
  apply (acceleration_independent_of_displacements notebook 1 2 values1 values2
           (initial_state notebook) st2 3).
  - apply shaped_initial.
  - apply (run_steps_shaped notebook 2); [vm_compute; lia | exact E2].
  - vm_compute. lia.
  - vm_compute. lia.
  - exact Eb1.
  - exact Eb2.
  - rewrite !notebook_u_applied_lookup by lia. reflexivity.
  - vm_compute. lia.
  - right. vm_compute. lia.
Defined.

Lemma remainder_steps_fail_witness :
  length (u_applied ten_steps) = 3 * (time_steps ten_steps / 3)
  /\ 3 * (time_steps ten_steps / 3) < time_steps ten_steps
  /\ (forall st, shaped ten_steps st ->
        time_step ten_steps st (3 * (time_steps ten_steps / 3)) = Raise IndexError)
  /\ is_ok (run ten_steps) = false
  /\ (2 <= length (neighbor_ids ten_steps 0) ->
      (np_pi * horizon ten_steps ^ 4)%Qc <> 0%Qc ->
      (exists st, run_steps ten_steps (3 * (time_steps ten_steps / 3)) = Ok st)
      /\ run ten_steps = Raise IndexError).
Proof.
  apply (remainder_steps_fail ten_steps); [vm_compute; reflexivity | vm_compute; lia].
Defined.

(** ** The mesh *)

Lemma lit_2 : lit 2.0 = 2%Qc.
Proof. apply Qc_is_canon. reflexivity. Qed.

Lemma of_int_sub (a b : nat) :
  b <= a -> of_int (Z.of_nat (a - b)) = (of_int (Z.of_nat a) - of_int (Z.of_nat b))%Qc.
Proof.
  intros H. unfold of_int. rewrite Nat2Z.inj_sub by exact H. apply Z2Qc_inj_sub.
Qed.

Lemma linspace_lookup (start stop : Qc) (d i : nat) :
  i < S d ->
  linspace start stop (S (S d)) !! i
  = Some (start + of_int (Z.of_nat i) * ((stop - start) / of_int (Z.of_nat (S d))))%Qc.
Proof.
  intros Hi. unfold linspace.
  rewrite lookup_app_l by (rewrite length_map, length_seq; exact Hi).
  change (map ?f ?l) with (f <$> l).
  rewrite list_lookup_fmap, lookup_seq_lt by exact Hi. reflexivity.
Qed.

Lemma linspace_last (start stop : Qc) (d : nat) :
  linspace start stop (S (S d)) !! S d = Some stop.
Proof.
  unfold linspace.
  rewrite lookup_app_r by (rewrite length_map, length_seq; lia).
  rewrite length_map, length_seq, Nat.sub_diag. reflexivity.
Qed.

Lemma span_of_bar (p : Params) : (end_position p - start_position p)%Qc = bar_length p.
Proof. unfold end_position, start_position. rewrite lit_2. field. discriminate. Qed.

Lemma start_position_opp (p : Params) : start_position p = (- end_position p)%Qc.
Proof. unfold start_position, end_position, Qcdiv. ring. Qed.

(** The node at position [i] of a bar of at least two nodes. *)
Lemma nodes_lookup (p : Params) (i : nat) :
  2 <= number_of_elements p -> i < number_of_elements p ->
  nodes p !! i
  = Some (start_position p
          + of_int (Z.of_nat i)
            * (bar_length p / of_int (Z.of_nat (number_of_elements p - 1))))%Qc.
Proof.
  intros HN Hi. unfold nodes. fold (start_position p). fold (end_position p).
  destruct (number_of_elements p) as [|[|d]]; try lia.
  replace (S (S d) - 1) with (S d) by lia.
  pose proof (of_int_S_neq_0 d) as Hd.
  destruct (Nat.eq_dec i (S d)) as [->|E].
  - rewrite linspace_last. f_equal. rewrite <- span_of_bar. field. exact Hd.
  - rewrite linspace_lookup by lia. rewrite span_of_bar. reflexivity.
Qed.

Lemma nodes_first (p : Params) :
  2 <= number_of_elements p -> nodes p !! 0 = Some (start_position p).
Proof.
  intros HN. rewrite nodes_lookup by lia. f_equal.
  change (Z.of_nat 0) with 0%Z. rewrite of_int_0. ring.
Qed.

Lemma nodes_last (p : Params) :
  2 <= number_of_elements p ->
  nodes p !! (number_of_elements p - 1) = Some (end_position p).
Proof.
  intros HN. rewrite nodes_lookup by lia. f_equal. rewrite <- span_of_bar.
  field. replace (number_of_elements p - 1) with (S (number_of_elements p - 2)) by lia.
  apply of_int_S_neq_0.
Qed.

(** The coordinate at position [N - 1 - i] is the opposite of the one at
    position [i]. *)
Lemma mirrored_coordinate (p : Params) (i : nat) :
  2 <= number_of_elements p -> i < number_of_elements p ->
  (start_position p
   + of_int (Z.of_nat (number_of_elements p - 1 - i))
     * (bar_length p / of_int (Z.of_nat (number_of_elements p - 1))))%Qc
  = (- (start_position p
        + of_int (Z.of_nat i)
          * (bar_length p / of_int (Z.of_nat (number_of_elements p - 1)))))%Qc.
Proof.
  intros HN Hi. rewrite of_int_sub by lia.
  assert (Hd : of_int (Z.of_nat (number_of_elements p - 1)) <> 0%Qc).
  { replace (number_of_elements p - 1) with (S (number_of_elements p - 2)) by lia.
    apply of_int_S_neq_0. }
  unfold start_position. rewrite lit_2. field. split; [exact Hd | discriminate].
Qed.

Lemma in_boundary_layer_opp (p : Params) (node : Qc) :
  in_boundary_layer p (- node)%Qc = in_boundary_layer p node.
Proof.
  unfold in_boundary_layer. rewrite start_position_opp.
  replace (- node - - end_position p)%Qc with (- (node - end_position p))%Qc by ring.
  replace (- node - end_position p)%Qc with (- (node - - end_position p))%Qc by ring.
  rewrite !Qcabs_opp. apply orb_comm.
Qed.

(** X3.  The two boundary layers mirror each other, so the field
    [node_values] the boundary loop builds is the same read from either end
    of the bar. *)
Theorem boundary_values_symmetric (p : Params) (n : nat) (node_values : list Qc) (i : nat) :
  2 <= number_of_elements p ->
  boundary_loop p n = Ok node_values ->
  i < number_of_elements p ->
  node_values !! (number_of_elements p - 1 - i) = node_values !! i.
Proof.
  intros HN Hb Hi. apply boundary_loop_ok in Hb. subst node_values.
  assert (Hm : number_of_elements p - 1 - i < number_of_elements p) by lia.
  rewrite (node_values_at_lookup p n i _ (nodes_lookup p i HN Hi)).
  rewrite (node_values_at_lookup p n _ _ (nodes_lookup p _ HN Hm)).
  rewrite mirrored_coordinate by assumption.
  rewrite in_boundary_layer_opp. reflexivity.
Qed.

Lemma boundary_values_symmetric_witness :
  match boundary_loop notebook 0 with
  | Ok node_values => node_values !! (number_of_elements notebook - 1 - 2) = node_values !! 2
  | Raise _ => False
  end.
Proof.
  destruct (boundary_loop notebook 0) as [node_values|e] eqn:Hb.
  - apply (boundary_values_symmetric notebook 0 node_values 2).
    + vm_compute. lia.
    + exact Hb.
    + vm_compute. lia.
  - vm_compute in Hb. discriminate Hb.
Defined.

(** ** The neighbour search *)

(** X4.  With a horizon that is not negative, the ball query returns every
    node among its own neighbours, and node [j] is a neighbour of node [i]
    exactly when node [i] is a neighbour of node [j]. *)
Theorem neighbor_ids_reflexive_symmetric (p : Params) (i j : nat) :
  (0 <= horizon p)%Qc ->
  i < nx p -> j < nx p ->
  In i (neighbor_ids p i)
  /\ (In j (neighbor_ids p i) <-> In i (neighbor_ids p j)).
Proof.
  intros Hh Hi Hj.
  destruct (lookup_lt_is_Some_2 (nodes p) i) as (a & Ha); [rewrite length_nodes; exact Hi|].
  destruct (lookup_lt_is_Some_2 (nodes p) j) as (b & Hb); [rewrite length_nodes; exact Hj|].
  rewrite (neighbor_ids_spec p i i a Ha).
  rewrite (neighbor_ids_spec p i j a Ha), (neighbor_ids_spec p j i b Hb).
  split; [|split].
  - exists a. split; [exact Ha|]. replace (a - a)%Qc with 0%Qc by ring. exact Hh.
  - intros (b' & Hb' & Hd). rewrite Hb in Hb'. injection Hb' as <-.
    exists a. split; [exact Ha|]. rewrite Qcabs_Qcminus. exact Hd.
  - intros (a' & Ha' & Hd). rewrite Ha in Ha'. injection Ha' as <-.
    exists b. split; [exact Hb|]. rewrite Qcabs_Qcminus. exact Hd.
Qed.

Lemma neighbor_ids_reflexive_symmetric_witness :
  In 3 (neighbor_ids notebook 3)
  /\ (In 5 (neighbor_ids notebook 3) <-> In 3 (neighbor_ids notebook 5)).
Proof.
  apply (neighbor_ids_reflexive_symmetric notebook 3 5).
  - vm_compute. discriminate.
  - vm_compute. lia.
  - vm_compute. lia.
Defined.

(** X5.  Which nodes the ball query returns, by position.  The nodes are
    [bar_length / (N - 1)] apart and the horizon is
    [3.014 * bar_length / N], so node [j] is a neighbour of node [i]
    exactly when [|j - i| * N <= 3.014 * (N - 1)]. *)
Theorem neighbor_ids_by_index (p : Params) (i j : nat) :
  2 <= number_of_elements p ->
  (0 < bar_length p)%Qc ->
  i < number_of_elements p -> j < number_of_elements p ->
  In j (neighbor_ids p i)
  <-> (Qcabs (of_int (Z.of_nat j) - of_int (Z.of_nat i))
       * of_int (Z.of_nat (number_of_elements p))
       <= lit 3.014 * of_int (Z.of_nat (number_of_elements p - 1)))%Qc.
Proof.
  intros HN HL Hi Hj.
  rewrite (neighbor_ids_spec p i j _ (nodes_lookup p i HN Hi)).
  rewrite (nodes_lookup p j HN Hj).
  unfold horizon, delta_x.
  set (n := of_int (Z.of_nat (number_of_elements p))).
  set (m := of_int (Z.of_nat (number_of_elements p - 1))).
  set (d := (of_int (Z.of_nat j) - of_int (Z.of_nat i))%Qc).
  assert (Hn : (0 < n)%Qc).
  { subst n. replace (number_of_elements p) with (S (number_of_elements p - 1)) by lia.
    apply of_int_S_pos. }
  assert (Hm : (0 < m)%Qc).
  { subst m. replace (number_of_elements p - 1) with (S (number_of_elements p - 2)) by lia.
    apply of_int_S_pos. }
  assert (Hn0 : n <> 0%Qc) by (apply not_eq_sym, Qclt_not_eq, Hn).
  assert (Hm0 : m <> 0%Qc) by (apply not_eq_sym, Qclt_not_eq, Hm).
  assert (HL0 : bar_length p <> 0%Qc) by (apply not_eq_sym, Qclt_not_eq, HL).
  assert (Hh : (0 < bar_length p / m)%Qc) by (apply Qcmult_pos; [exact HL | apply Qcinv_pos, Hm]).
  assert (Habs : forall a,
             Qcabs (a + of_int (Z.of_nat j) * (bar_length p / m)
                    - (a + of_int (Z.of_nat i) * (bar_length p / m)))%Qc
             = (Qcabs d * (bar_length p / m))%Qc).
  { intros a.
    replace (a + of_int (Z.of_nat j) * (bar_length p / m)
             - (a + of_int (Z.of_nat i) * (bar_length p / m)))%Qc
      with (d * (bar_length p / m))%Qc by (subst d; ring).
    rewrite Qcabs_Qcmult. f_equal. apply Qcabs_pos, Qclt_le_weak, Hh. }
  split.
  - intros (other & [= <-] & Hd). rewrite Habs in Hd.
    apply (Qcmult_le_compat_r _ _ (n * m / bar_length p)%Qc) in Hd.
    + replace (Qcabs d * (bar_length p / m) * (n * m / bar_length p))%Qc
        with (Qcabs d * n)%Qc in Hd by (field; split; assumption).
      replace (bar_length p / n * lit 3.014 * (n * m / bar_length p))%Qc
        with (lit 3.014 * m)%Qc in Hd by (field; split; assumption).
      exact Hd.
    + apply Qclt_le_weak, Qcmult_pos; [apply Qcmult_pos; assumption | apply Qcinv_pos, HL].
  - intros Hd. eexists. split; [reflexivity|]. rewrite Habs.
    apply (Qcmult_le_compat_r _ _ (bar_length p / (n * m))%Qc) in Hd.
    + replace (Qcabs d * n * (bar_length p / (n * m)))%Qc
        with (Qcabs d * (bar_length p / m))%Qc in Hd by (field; split; assumption).
      replace (lit 3.014 * m * (bar_length p / (n * m)))%Qc
        with (bar_length p / n * lit 3.014)%Qc in Hd by (field; split; assumption).
      exact Hd.
    + apply Qclt_le_weak, Qcmult_pos; [exact HL | apply Qcinv_pos, Qcmult_pos; assumption].
Qed.

Lemma neighbor_ids_by_index_witness :
  In 5 (neighbor_ids notebook 3)
  <-> (Qcabs (of_int (Z.of_nat 5) - of_int (Z.of_nat 3))
       * of_int (Z.of_nat (number_of_elements notebook))
       <= lit 3.014 * of_int (Z.of_nat (number_of_elements notebook - 1)))%Qc.
Proof.
  apply (neighbor_ids_by_index notebook 3 5).
  - vm_compute. lia.
  - vm_compute. reflexivity.
  - vm_compute. lia.
  - vm_compute. lia.
Defined.

(** X6.  A node is in a boundary layer exactly when the ball query around
    it returns the first or the last node of the bar. *)
Theorem boundary_layer_by_neighbours (p : Params) (i : nat) (node : Qc) :
  2 <= number_of_elements p ->
  nodes p !! i = Some node ->
  in_boundary_layer p node = true
  <-> In 0 (neighbor_ids p i) \/ In (number_of_elements p - 1) (neighbor_ids p i).
Proof.
  intros HN Hi.
  rewrite in_boundary_layer_iff.
  rewrite (neighbor_ids_spec p i 0 node Hi), (neighbor_ids_spec p i _ node Hi).
  rewrite (nodes_first p HN), (nodes_last p HN).
  rewrite (Qcabs_Qcminus node (start_position p)), (Qcabs_Qcminus node (end_position p)).
  split.
  - intros [H|H]; [left | right]; eexists; (split; [reflexivity | exact H]).
  - intros [(o & [= <-] & H)|(o & [= <-] & H)]; [left | right]; exact H.
Qed.

Lemma boundary_layer_by_neighbours_witness :
  in_boundary_layer notebook (lit 2.5) = true
  <-> In 0 (neighbor_ids notebook 4)
      \/ In (number_of_elements notebook - 1) (neighbor_ids notebook 4).
Proof.
  apply (boundary_layer_by_neighbours notebook 4 (lit 2.5)).
  - vm_compute. lia.
  - qc_values.
Defined.

(** X7.  The identifier column of [nodes_with_ids] leads back to the row
    it was read from: [int(nodes_with_ids[x][0])] is [x], so
    [nodes_coords[node_index]] is the row [x] of [nodes_coords], and both
    reads raise [IndexError] together. *)
Theorem ids_round_trip (p : Params) (x : nat) :
  py_get (nodes_with_ids p) x
    ≫= (fun idrow => py_get (nodes_coords p) (Z.to_nat (py_int idrow.1)))
  = py_get (nodes_coords p) x
  /\ (py_get (nodes_with_ids p) x ≫= (fun idrow => Ok (py_int idrow.1))
      = if decide (x < nx p) then Ok (Z.of_nat x) else Raise IndexError).
Proof.
  destruct (nodes p !! x) as [node|] eqn:Hn.
  - rewrite (py_get_lookup _ _ _ (nodes_with_ids_lookup p x node Hn)).
    cbn [mbind result_bind fst]. rewrite py_int_of_int, Nat2Z.id.
    split; [reflexivity|].
    apply lookup_lt_Some in Hn. rewrite length_nodes in Hn.
    destruct (decide (x < nx p)); [reflexivity | lia].
  - apply lookup_ge_None_1 in Hn. rewrite length_nodes in Hn.
    assert (Hw : length (nodes_with_ids p) <= x).
    { unfold nodes_with_ids. rewrite length_zip_with, length_nodes_coords. lia. }
    rewrite (py_get_ge _ _ Hw). cbn [mbind result_bind].
    rewrite py_get_ge by (rewrite length_nodes_coords; exact Hn).
    split; [reflexivity|]. destruct (decide (x < nx p)); [lia | reflexivity].
Qed.

(** ** Bonds *)

Lemma py_int_close (q : Qc) : (Qcabs (of_int (py_int q) - q) < 1)%Qc.
Proof.
  assert (H : (of_int (py_int q) - q < 1 /\ q - of_int (py_int q) < 1)%Qc).
  { unfold Qclt, Qcminus, Qcplus, Qcopp, of_int, Qc_of_Z, py_int, Q2Qc. cbn [this].
    rewrite !Qred_correct. change (Qred 1) with 1%Q.
    destruct q as [[n d] Hc]. cbn [this Qnum Qden].
    pose proof (Z.quot_rem' n (Zpos d)) as Hq.
    pose proof (Z.rem_bound_abs n (Zpos d)) as Hr.
    unfold Qlt, Qplus, Qopp, inject_Z. cbn [Qnum Qden].
    split; nia. }
  destruct H as (H1 & H2).
  apply Qcabs_case; intros _; [exact H1|].
  replace (- (of_int (py_int q) - q))%Qc with (q - of_int (py_int q))%Qc by ring. exact H2.
Qed.

(** X8.  [ksi] is computed from the truncated coordinate [int(x_p)] of the
    other node.  It is less than one away from the reference distance
    [|x_p - x_i|], and equal to it when [x_p] is a whole number. *)
Theorem ksi_truncation (p : Params) (x pidx : nat) (xi_node xp_node : Qc) :
  nodes p !! x = Some xi_node ->
  nodes p !! pidx = Some xp_node ->
  (Qcabs (ksi_at p x pidx - Qcabs (xp_node - xi_node)) < 1)%Qc
  /\ (of_int (py_int xp_node) = xp_node -> ksi_at p x pidx = Qcabs (xp_node - xi_node)).
Proof.
  intros Hx Hp. rewrite ksi_at_abs, Hx, Hp. cbn [default from_option id].
  split; [|intros ->; reflexivity].
  set (t := of_int (py_int xp_node)).
  apply Qcle_lt_trans with (Qcabs (t - xp_node)); [|apply py_int_close].
  apply Qcabs_Qcle_condition. split.
  - pose proof (Qcabs_triangle_reverse (xp_node - xi_node) (t - xi_node)) as H.
    replace (xp_node - xi_node - (t - xi_node))%Qc with (xp_node - t)%Qc in H by ring.
    rewrite (Qcabs_Qcminus xp_node t) in H.
    apply Qcopp_le_compat in H.
    replace (- (Qcabs (xp_node - xi_node) - Qcabs (t - xi_node)))%Qc
      with (Qcabs (t - xi_node) - Qcabs (xp_node - xi_node))%Qc in H by ring.
    exact H.
  - pose proof (Qcabs_triangle_reverse (t - xi_node) (xp_node - xi_node)) as H.
    replace (t - xi_node - (xp_node - xi_node))%Qc with (t - xp_node)%Qc in H by ring.
    exact H.
Qed.

Lemma ksi_truncation_witness :
  (Qcabs (ksi_at notebook 3 1 - Qcabs (lit (-5) - 0)) < 1)%Qc
  /\ (of_int (py_int (lit (-5))) = lit (-5)
      -> ksi_at notebook 3 1 = Qcabs (lit (-5) - 0)).
Proof. apply (ksi_truncation notebook 3 1 0%Qc (lit (-5))); qc_values. Defined.

(** X9.  [node_values] holds the boundary value of the step at the nodes
    of the boundary layers and zero elsewhere, so [eta] is zero between two
    nodes of the boundary layers and between two nodes outside them;
    between a node inside and a node outside it is the boundary value of
    the step, with the sign of the direction. *)
Theorem eta_between_nodes (p : Params) (n : nat) (node_values : list Qc)
    (x pidx : nat) (xi_node xp_node : Qc) :
  boundary_loop p n = Ok node_values ->
  nodes p !! x = Some xi_node ->
  nodes p !! pidx = Some xp_node ->
  match in_boundary_layer p xi_node, in_boundary_layer p xp_node with
  | true, true | false, false => eta_at node_values x pidx = 0%Qc
  | false, true =>
      exists v, u_applied p !! n = Some v /\ eta_at node_values x pidx = v
  | true, false =>
      exists v, u_applied p !! n = Some v /\ eta_at node_values x pidx = (- v)%Qc
  end.
Proof.
  intros Hb Hx Hp.
  assert (Hv : forall node i, nodes p !! i = Some node -> in_boundary_layer p node = true ->
               exists v, u_applied p !! n = Some v).
  { intros node i Hi Hin. rewrite boundary_loop_spec in Hb.
    rewrite (has_boundary_node_intro p i node Hi Hin) in Hb. cbn [andb] in Hb.
    destruct (bool_decide_reflect (length (u_applied p) <= n)) as [Hle|Hlt];
      [discriminate Hb|].
    apply lookup_lt_is_Some_2. lia. }
  apply boundary_loop_ok in Hb. subst node_values.
  unfold eta_at.
  rewrite (node_values_at_lookup p n x xi_node Hx), (node_values_at_lookup p n pidx xp_node Hp).
  cbn [default from_option id].
  destruct (in_boundary_layer p xi_node) eqn:Ei; destruct (in_boundary_layer p xp_node) eqn:Ep.
  - ring.
  - destruct (Hv xi_node x Hx Ei) as (v & Hv'). exists v. split; [exact Hv'|].
    rewrite Hv'. cbn [default from_option id]. ring.
  - destruct (Hv xp_node pidx Hp Ep) as (v & Hv'). exists v. split; [exact Hv'|].
    rewrite Hv'. cbn [default from_option id]. ring.
  - ring.
Qed.

Lemma eta_between_nodes_witness :
  match boundary_loop notebook 60 with
  | Ok node_values =>
      exists v, u_applied notebook !! 60 = Some v /\ eta_at node_values 3 2 = v
  | Raise _ => False
  end.
Proof.
  destruct (boundary_loop notebook 60) as [node_values|e] eqn:Hb.
  - apply (eta_between_nodes notebook 60 node_values 3 2 0%Qc (lit (-2.5)) Hb); qc_values.
  - vm_compute in Hb. discriminate Hb.
Defined.

(** ** The divisor of [c] *)

Lemma np_pi_neq_0 : np_pi <> 0%Qc.
Proof. intros H. apply (f_equal this) in H. vm_compute in H. discriminate H. Qed.

Lemma lit_3014_neq_0 : lit 3.014 <> 0%Qc.
Proof. intros H. apply (f_equal this) in H. vm_compute in H. discriminate H. Qed.

Lemma horizon_eq_0 (p : Params) :
  0 < number_of_elements p -> horizon p = 0%Qc <-> bar_length p = 0%Qc.
Proof.
  intros HN. unfold horizon, delta_x.
  assert (Hn : of_int (Z.of_nat (number_of_elements p)) <> 0%Qc).
  { replace (number_of_elements p) with (S (number_of_elements p - 1)) by lia.
    apply of_int_S_neq_0. }
  split.
  - intros H. apply Qcmult_integral in H. destruct H as [H|H];
      [|contradiction (lit_3014_neq_0 H)].
    rewrite <- (Qcmult_div_r (bar_length p) _ Hn), H. ring.
  - intros ->. unfold Qcdiv. ring.
Qed.

Lemma c_undefined_iff (p : Params) :
  0 < number_of_elements p -> c_undefined p = true <-> bar_length p = 0%Qc.
Proof.
  intros HN. unfold c_undefined. rewrite bool_decide_eq_true, <- (horizon_eq_0 p HN).
  split.
  - intros H. apply Qcmult_integral in H. destruct H as [H|H];
      [contradiction (np_pi_neq_0 H)|].
    cbn [Qcpower] in H.
    repeat (apply Qcmult_integral in H; destruct H as [H|H]; [exact H|]).
    contradiction (Q_apart_0_1 H).
  - intros ->. apply Qc_is_canon. reflexivity.
Qed.

(** ** The phases of the boundary displacement *)

Lemma u_applied_lookup (p : Params) (n : nat) :
  n < 3 * (time_steps p / 3) ->
  u_applied p !! n
  = Some (if n <? time_steps p / 3 then u0 p
          else if n <? 2 * (time_steps p / 3) then (- u0 p)%Qc else 0%Qc).
Proof.
  intros Hn. rewrite u_applied_repeat.
  destruct (Nat.ltb_spec n (time_steps p / 3)) as [H1|H1].
  - rewrite lookup_app_l by (rewrite repeat_length; exact H1). apply lookup_repeat, H1.
  - rewrite lookup_app_r by (rewrite repeat_length; exact H1). rewrite repeat_length.
    destruct (Nat.ltb_spec n (2 * (time_steps p / 3))) as [H2|H2].
    + rewrite lookup_app_l by (rewrite repeat_length; lia). apply lookup_repeat. lia.
    + rewrite lookup_app_r by (rewrite repeat_length; lia). rewrite repeat_length.
      apply lookup_repeat. lia.
Qed.

(** X13.  At a step that has a boundary value, the boundary loop does not
    raise and gives the nodes of the boundary layers [+u0] in the first
    third of the steps, [-u0] in the second and [0] in the last; in the
    last third [node_values] is the zero field again. *)
Theorem boundary_loop_phases (p : Params) (n : nat) :
  n < 3 * (time_steps p / 3) ->
  boundary_loop p n
  = Ok (map (fun node =>
               if in_boundary_layer p node
               then if n <? time_steps p / 3 then u0 p
                    else if n <? 2 * (time_steps p / 3) then (- u0 p)%Qc else 0%Qc
               else 0%Qc)
            (nodes p))
  /\ (2 * (time_steps p / 3) <= n -> boundary_loop p n = Ok (zeros (nx p))).
Proof.
  intros Hn. rewrite boundary_loop_spec.
  rewrite (bool_decide_eq_false_2 (length (u_applied p) <= n))
    by (rewrite length_u_applied; lia).
  rewrite andb_false_r. unfold node_values_at. rewrite (u_applied_lookup p n Hn).
  cbn [default from_option id]. split; [reflexivity|].
  intros H2. f_equal.
  destruct (Nat.ltb_spec n (time_steps p / 3)); [lia|].
  destruct (Nat.ltb_spec n (2 * (time_steps p / 3))); [lia|].
  rewrite <- length_nodes. unfold zeros.
  induction (nodes p) as [|node l IH]; [reflexivity|].
  cbn [map length repeat]. rewrite IH. destruct (in_boundary_layer p node); reflexivity.
Qed.

Lemma boundary_loop_phases_witness :
  boundary_loop notebook 120
  = Ok (map (fun node =>
               if in_boundary_layer notebook node
               then if 120 <? time_steps notebook / 3 then u0 notebook
                    else if 120 <? 2 * (time_steps notebook / 3)
                         then (- u0 notebook)%Qc else 0%Qc
               else 0%Qc)
            (nodes notebook))
  /\ (2 * (time_steps notebook / 3) <= 120
      -> boundary_loop notebook 120 = Ok (zeros (nx notebook))).
Proof. apply (boundary_loop_phases notebook 120). vm_compute. lia. Defined.

(** ** The recorded solution *)

Lemma solution_after_step (p : Params) (st : State) (n : nat) :
  shaped p st -> n < time_steps p ->
  u_vector_solution (rotate (nodes_done p n (node_values_at p n) (nx p) st))
  = <[n := u_vector_at_current_time_step st]> (u_vector_solution st).
Proof.
  intros Hs Hn. destruct (shaped_row p st n Hs Hn) as (row & Hrow & Hlen).
  destruct Hs as (Hc & _).
  cbn [rotate nodes_done u_vector_solution]. rewrite Hrow. cbn [default from_option id].
  rewrite take_ge, drop_ge, app_nil_r by lia. reflexivity.
Qed.

(** X15.  After [k] completed steps, row [j] of [u_vector_solution] holds,
    for every [j < k], the displacement field as it was when step [j]
    began (the initial field for row 0), and every later row is still
    zero. *)
Theorem solution_rows (p : Params) (k : nat) (st : State) :
  k <= time_steps p ->
  run_steps p k = Ok st ->
  (forall j, j < k ->
     exists st_j, run_steps p j = Ok st_j
                  /\ u_vector_solution st !! j = Some (u_vector_at_current_time_step st_j))
  /\ (forall j, k <= j -> j < time_steps p ->
        u_vector_solution st !! j = Some (zeros (nx p))).
Proof.
  revert st. induction k as [|k IH]; intros st Hk Hrun.
  - injection Hrun as <-. split; [intros j Hj; lia|].
    intros j _ Hj. cbn [initial_state u_vector_solution]. apply lookup_repeat, Hj.
  - rewrite run_steps_S in Hrun. apply bind_ok in Hrun.
    destruct Hrun as (st0 & Hrun0 & Hstep).
    assert (Hs : shaped p st0) by (apply (run_steps_shaped p k); (lia || assumption)).
    destruct (time_step_ok_inv p st0 st k Hs ltac:(lia) Hstep) as (_ & -> & _).
    rewrite solution_after_step by (assumption || lia).
    destruct (IH st0 ltac:(lia) Hrun0) as (Hrec & Hzero).
    split.
    + intros j Hj. destruct (Nat.eq_dec j k) as [->|Hne].
      * exists st0. split; [exact Hrun0|].
        apply list_lookup_insert_eq. destruct Hs as (_ & _ & _ & Hlen & _). lia.
      * destruct (Hrec j ltac:(lia)) as (st_j & Hj1 & Hj2).
        exists st_j. split; [exact Hj1|].
        rewrite list_lookup_insert_ne by lia. exact Hj2.
    + intros j Hj1 Hj2. rewrite list_lookup_insert_ne by lia. apply Hzero; lia.
Qed.

Lemma solution_rows_witness :
  match run_steps notebook 2 with
  | Ok st =>
      (forall j, j < 2 ->
         exists st_j, run_steps notebook j = Ok st_j
                      /\ u_vector_solution st !! j
                         = Some (u_vector_at_current_time_step st_j))
      /\ (forall j, 2 <= j -> j < time_steps notebook ->
            u_vector_solution st !! j = Some (zeros (nx notebook)))
  | Raise _ => False
  end.
Proof.
  destruct (run_steps notebook 2) as [st|e] eqn:E.
  - apply (solution_rows notebook 2 st); [vm_compute; lia | exact E].
  - vm_compute in E. discriminate E.
Defined.

(** X16.  A step reads neither [u_vector_at_future_time_step] nor, when the
    first node has a bond, the value [acceleration] had when the step
    began: two states that agree on the recorded solution and on the
    current and previous fields give the same result, exception or state. *)
Theorem time_step_never_reads_future (p : Params) (st1 st2 : State) (n : nat) :
  shaped p st1 -> shaped p st2 -> n < time_steps p ->
  2 <= length (neighbor_ids p 0) ->
  u_vector_solution st1 = u_vector_solution st2 ->
  u_vector_at_current_time_step st1 = u_vector_at_current_time_step st2 ->
  u_vector_at_previous_time_step st1 = u_vector_at_previous_time_step st2 ->
  time_step p st1 n = time_step p st2 n.
Proof.
  intros Hs1 Hs2 Hn Hcnt Hsol Hcur Hprev.
  assert (Hb : bond_indices p 0 <> []).
  { intros E. apply bond_indices_0_nil in E. lia. }
  assert (Hnx : 2 <= nx p) by (pose proof (length_neighbor_ids p 0); lia).
  rewrite !time_step_spec by assumption.
  rewrite (accel_after_entry p _ 0 (acceleration st1) (acceleration st2) Hb).
  assert (E : nodes_done p n (node_values_at p n) (nx p) st1
              = nodes_done p n (node_values_at p n) (nx p) st2).
  { unfold nodes_done. rewrite Hsol, Hcur, Hprev.
    destruct Hs1 as (_ & Hf1 & _). destruct Hs2 as (_ & Hf2 & _).
    rewrite (drop_ge (u_vector_at_future_time_step st1)),
      (drop_ge (u_vector_at_future_time_step st2)) by lia.
    destruct (nx p) as [|m] eqn:Em; [lia|].
    rewrite (accel_after_entry p _ m (acceleration st1) (acceleration st2) Hb).
    f_equal. f_equal. apply map_ext_in. intros x _. unfold future_value.
    rewrite (accel_after_entry p _ x (acceleration st1) (acceleration st2) Hb).
    rewrite Hcur, Hprev. reflexivity. }
  rewrite E. reflexivity.
Qed.

Lemma time_step_never_reads_future_witness :
  time_step notebook (initial_state notebook) 1
  = time_step notebook
      {| u_vector_solution := u_vector_solution (initial_state notebook);
         u_vector_at_current_time_step := zeros 7;
         u_vector_at_future_time_step := repeat 1%Qc 7;
         u_vector_at_previous_time_step := zeros 7;
         acceleration := Some 1%Qc |} 1.
Proof.
  apply (time_step_never_reads_future notebook).
  - apply shaped_initial.
  - repeat split; try reflexivity. apply Forall_forall. intros row Hrow.
    apply repeat_spec in Hrow. subst row. reflexivity.
  - vm_compute. lia.
  - vm_compute. lia.
  - reflexivity.
  - reflexivity.
  - reflexivity.
Defined.

(** ** How the run ends *)

(** What the completion of the first step says about the parameters. *)
Lemma first_step_completed (p : Params) (k : nat) (st : State) :
  0 < k <= time_steps p -> run_steps p k = Ok st ->
  (0 < nx p -> 2 <= length (neighbor_ids p 0))
  /\ ~ (c_undefined p = true /\ exists x, x < nx p /\ has_bond p x = true).
Proof.
  intros Hk Hrun.
  destruct (run_steps_prefix p k 1 st Hrun ltac:(lia)) as [st1 H1].
  rewrite run_steps_S in H1. cbn [run_steps for_each seq mbind result_bind] in H1.
  destruct (time_step_cases p (initial_state p) 0 (shaped_initial p) ltac:(lia))
    as [(_ & E) | [(_ & _ & E) | [(_ & _ & _ & E) | (_ & Hname & Hzero & _)]]];
    try congruence.
  split; [|exact Hzero].
  intros Hnx. destruct (le_lt_dec 2 (length (neighbor_ids p 0))) as [H|H]; [exact H|].
  exfalso. apply Hname. split; [lia|]. split; [reflexivity | lia].
Qed.

(** X17.  Once a step has completed, a later step can fail in one way
    only: [NameError] and [ZeroDivisionError] belong to step 0, and a later
    step raises [IndexError] when some node is in a boundary layer and
    [u_applied] has no entry for it, and completes otherwise. *)
Theorem later_steps_fail_by_index_only (p : Params) (k : nat) (st : State) :
  0 < k < time_steps p ->
  run_steps p k = Ok st ->
  (time_step p st k = Raise IndexError
   <-> has_boundary_node p = true /\ length (u_applied p) <= k)
  /\ (is_ok (time_step p st k) = true
      <-> ~ (has_boundary_node p = true /\ length (u_applied p) <= k)).
Proof.
  intros Hk Hrun.
  assert (Hs : shaped p st) by (apply (run_steps_shaped p k); (lia || assumption)).
  destruct (first_step_completed p k st ltac:(lia) Hrun) as (Hcnt & Hzero).
  destruct (time_step_cases p st k Hs ltac:(lia))
    as [(Hi & E) | [(_ & (Hnx & _ & Hle) & _) | [(_ & _ & Hz & _) | (Hi & _ & _ & st' & E)]]].
  - rewrite E. split; [tauto|]. split; [discriminate | tauto].
  - specialize (Hcnt Hnx). lia.
  - contradiction.
  - rewrite E. split; [split; [discriminate | tauto]|]. cbn [is_ok]. tauto.
Qed.

Lemma later_steps_fail_by_index_only_witness :
  match run_steps ten_steps 9 with
  | Ok st =>
      (time_step ten_steps st 9 = Raise IndexError
       <-> has_boundary_node ten_steps = true /\ length (u_applied ten_steps) <= 9)
      /\ (is_ok (time_step ten_steps st 9) = true
          <-> ~ (has_boundary_node ten_steps = true /\ length (u_applied ten_steps) <= 9))
  | Raise _ => False
  end.
Proof.
  destruct (run_steps ten_steps 9) as [st|e] eqn:E.
  - apply (later_steps_fail_by_index_only ten_steps 9 st); [vm_compute; lia | exact E].
  - vm_compute in E. discriminate E.
Defined.

Lemma run_fails_at (p : Params) (k : nat) (st : State) (e : PyError) :
  k < time_steps p -> run_steps p k = Ok st -> time_step p st k = Raise e ->
  run p = Raise e.
Proof.
  intros Hk Hrun Hstep. rewrite (run_split p (S k)) by lia.
  rewrite run_steps_S, Hrun. cbn [mbind result_bind]. rewrite Hstep. reflexivity.
Qed.

Lemma run_steps_ok_unbounded (p : Params) (k : nat) :
  (0 < nx p -> 2 <= length (neighbor_ids p 0)) -> c_undefined p = false ->
  has_boundary_node p = false \/ k <= length (u_applied p) ->
  k <= time_steps p ->
  exists st, run_steps p k = Ok st.
Proof.
  intros Hc Hd. induction k as [|k IH]; intros Hb Hk; [eexists; reflexivity|].
  destruct IH as [st Hst]; [destruct Hb; [left; assumption | right; lia] | lia |].
  rewrite run_steps_S, Hst. cbn [mbind result_bind].
  assert (Hs : shaped p st) by (apply (run_steps_shaped p k); (lia || assumption)).
  destruct (time_step_cases p st k Hs ltac:(lia))
    as [((HA1 & HA2) & _)
       | [(_ & (HB0 & _ & HB) & _) | [(_ & _ & (HC & _) & _) | (_ & _ & _ & st' & ->)]]].
  - destruct Hb; [congruence | lia].
  - specialize (Hc HB0). lia.
  - congruence.
  - eauto.
Qed.

(** The loop ends as [run_outcome] says. *)
Lemma run_outcome_spec (p : Params) :
  0 < number_of_elements p ->
  match run_outcome p with
  | Some e => run p = Raise e
  | None => is_ok (run p) = true
  end.
Proof.
  intros HN. unfold run_outcome.
  destruct (Nat.eqb_spec (time_steps p) 0) as [HT|HT].
  { unfold run. rewrite HT. reflexivity. }
  pose proof (length_u_applied p) as Hlen.
  pose proof (Nat.div_mod_eq (time_steps p) 3) as Hdm.
  pose proof (Nat.mod_upper_bound (time_steps p) 3 ltac:(lia)) as Hmod.
  destruct (time_step_cases p (initial_state p) 0 (shaped_initial p) ltac:(lia))
    as [((HA1 & HA2) & E)
       | [(Hi & (_ & _ & HB) & E)
         | [(Hi & Hname & (HC & _) & E) | (Hi & Hname & Hzero & st1 & E)]]].
  - rewrite HA1. destruct (Nat.ltb_spec (time_steps p) 3) as [_|H3]; [|lia].
    cbn [andb]. apply (run_fails_at p 0 (initial_state p)); [lia | reflexivity | exact E].
  - assert (Hb : has_boundary_node p && (time_steps p <? 3) = false).
    { destruct (has_boundary_node p) eqn:Hbn; [|reflexivity].
      destruct (Nat.ltb_spec (time_steps p) 3) as [H3|H3]; [|reflexivity].
      exfalso. apply Hi. split; [reflexivity | lia]. }
    rewrite Hb. destruct (Nat.leb_spec (length (neighbor_ids p 0)) 1) as [_|H1]; [|lia].
    apply (run_fails_at p 0 (initial_state p)); [lia | reflexivity | exact E].
  - assert (Hb : has_boundary_node p && (time_steps p <? 3) = false).
    { destruct (has_boundary_node p) eqn:Hbn; [|reflexivity].
      destruct (Nat.ltb_spec (time_steps p) 3) as [H3|H3]; [|reflexivity].
      exfalso. apply Hi. split; [reflexivity | lia]. }
    rewrite Hb. destruct (Nat.leb_spec (length (neighbor_ids p 0)) 1) as [H1|_].
    { exfalso. apply Hname. unfold nx. split; [exact HN|]. split; [reflexivity | exact H1]. }
    rewrite HC. apply (run_fails_at p 0 (initial_state p)); [lia | reflexivity | exact E].
  - assert (Hb : has_boundary_node p && (time_steps p <? 3) = false).
    { destruct (has_boundary_node p) eqn:Hbn; [|reflexivity].
      destruct (Nat.ltb_spec (time_steps p) 3) as [H3|H3]; [|reflexivity].
      exfalso. apply Hi. split; [reflexivity | lia]. }
    rewrite Hb. destruct (Nat.leb_spec (length (neighbor_ids p 0)) 1) as [H1|H1].
    { exfalso. apply Hname. unfold nx. split; [exact HN|]. split; [reflexivity | exact H1]. }
    assert (Hcd : c_undefined p = false).
    { destruct (c_undefined p) eqn:Hcd; [|reflexivity]. exfalso. apply Hzero.
      split; [reflexivity|]. exists 0. split; [exact HN|].
      apply has_bond_iff, bonds_everywhere; [lia | exact HN]. }
    rewrite Hcd.
    clear Hb Hi. destruct (has_boundary_node p) eqn:Hbn; cbn [andb].
    + destruct (Nat.eqb_spec (time_steps p mod 3) 0) as [H0|H0]; cbn [negb].
      * destruct (run_steps_ok_unbounded p (time_steps p)) as [st Hst];
          [lia | exact Hcd | right; lia | lia |].
        unfold run. rewrite Hst. reflexivity.
      * destruct (run_steps_ok_unbounded p (length (u_applied p))) as [st Hst];
          [lia | exact Hcd | right; lia | lia |].
        apply (run_fails_at p (length (u_applied p)) st); [lia | exact Hst |].
        rewrite time_step_spec;
          [|apply (run_steps_shaped p (length (u_applied p))); (lia || assumption) | lia].
        rewrite Hbn. cbn [andb]. rewrite bool_decide_eq_true_2 by lia. reflexivity.
    + destruct (run_steps_ok_unbounded p (time_steps p)) as [st Hst];
        [lia | exact Hcd | left; exact Hbn | lia |].
      unfold run. rewrite Hst. reflexivity.
Qed.

Lemma horizon_nonneg (p : Params) :
  0 < number_of_elements p -> (0 <= bar_length p)%Qc -> (0 <= horizon p)%Qc.
Proof.
  intros HN HL. unfold horizon, delta_x.
  apply Qcmult_nonneg; [|vm_compute; discriminate].
  apply Qcmult_nonneg; [exact HL|].
  replace (number_of_elements p) with (S (number_of_elements p - 1)) by lia.
  apply Qclt_le_weak, Qcinv_pos, of_int_S_pos.
Qed.

(** The horizon is wider than the spacing of the nodes. *)
Lemma spacing_within_horizon (p : Params) :
  2 <= number_of_elements p -> (0 <= bar_length p)%Qc ->
  (bar_length p / of_int (Z.of_nat (number_of_elements p - 1)) <= horizon p)%Qc.
Proof.
  intros HN HL. unfold horizon, delta_x.
  destruct (number_of_elements p) as [|[|d]]; try lia.
  replace (S (S d) - 1) with (S d) by lia.
  pose proof (of_int_S_pos d) as Hm. pose proof (of_int_S_pos (S d)) as Hn.
  pose proof (of_int_nonneg d) as Hd.
  set (n := of_int (Z.of_nat (S (S d)))) in *. set (m := of_int (Z.of_nat (S d))) in *.
  assert (Hn0 : n <> 0%Qc) by (apply not_eq_sym, Qclt_not_eq, Hn).
  assert (Hm0 : m <> 0%Qc) by (apply not_eq_sym, Qclt_not_eq, Hm).
  apply Qcle_minus_iff.
  replace (bar_length p / n * lit 3.014 + - (bar_length p / m))%Qc
    with (bar_length p * ((lit 3.014 * m - n) * / (n * m)))%Qc by (field; split; assumption).
  apply Qcmult_nonneg; [exact HL|].
  apply Qcmult_nonneg; [|apply Qclt_le_weak, Qcinv_pos, Qcmult_pos; assumption].
  subst n m. rewrite (of_int_S (S d)), (of_int_S d).
  set (k := of_int (Z.of_nat d)) in *.
  replace (lit 3.014 * (k + 1) - (k + 1 + 1))%Qc
    with (lit 2.014 * k + lit 1.014)%Qc.
  - rewrite <- (Qcplus_0_l 0). apply Qcplus_le_compat.
    + apply Qcmult_nonneg; [|exact Hd]. vm_compute. discriminate.
    + vm_compute. discriminate.
  - assert (E : lit 3.014 = (lit 2.014 + 1)%Qc) by (apply Qc_is_canon; reflexivity).
    assert (E' : lit 1.014 = (lit 2.014 - 1)%Qc) by (apply Qc_is_canon; reflexivity).
    rewrite E, E'. ring.
Qed.

Lemma two_members {A} (l : list A) (a b : A) :
  In a l -> In b l -> a <> b -> 2 <= length l.
Proof.
  destruct l as [|x [|y l]]; cbn [In length]; intros Ha Hb Hne; [tauto | | lia].
  destruct Ha as [<-|[]]. destruct Hb as [<-|[]]. congruence.
Qed.

(** The first node has a neighbour besides itself exactly when the bar has
    a second node. *)
Lemma first_node_neighbours (p : Params) :
  0 < number_of_elements p -> (0 <= bar_length p)%Qc ->
  2 <= length (neighbor_ids p 0) <-> 2 <= number_of_elements p.
Proof.
  intros HN HL. split.
  - intros H. pose proof (length_neighbor_ids p 0) as Hle. unfold nx in Hle. lia.
  - intros H2.
    pose proof (nodes_lookup p 0 H2 ltac:(lia)) as H0.
    pose proof (nodes_lookup p 1 H2 ltac:(lia)) as H1.
    apply (two_members _ 0 1); [| |lia].
    + apply (neighbor_ids_spec p 0 0 _ H0). eexists. split; [exact H0|].
      match goal with |- (Qcabs (?a - ?a) <= _)%Qc => replace (a - a)%Qc with 0%Qc by ring end.
      apply horizon_nonneg; assumption.
    + apply (neighbor_ids_spec p 0 1 _ H0). eexists. split; [exact H1|].
      change (Z.of_nat 0) with 0%Z. change (Z.of_nat 1) with 1%Z.
      rewrite of_int_0, of_int_1.
      set (h := (bar_length p / of_int (Z.of_nat (number_of_elements p - 1)))%Qc).
      replace (start_position p + 1 * h - (start_position p + 0 * h))%Qc with h by ring.
      pose proof (spacing_within_horizon p H2 HL) as Hh. fold h in Hh.
      rewrite Qcabs_pos; [exact Hh|].
      unfold h. apply Qcmult_nonneg; [exact HL|].
      replace (number_of_elements p - 1) with (S (number_of_elements p - 2)) by lia.
      apply Qclt_le_weak, Qcinv_pos, of_int_S_pos.
Qed.

(** X18.  Runs that fail at step 0, for a bar with at least one node and a
    length that is not negative.  With one or two steps [u_applied] is
    empty and step 0 raises [IndexError].  With three steps or more, a bar
    of a single node raises [NameError], and a bar of two nodes or more
    that has no length raises [ZeroDivisionError]. *)
Theorem runs_that_fail_at_step_0 (p : Params) :
  0 < number_of_elements p -> (0 <= bar_length p)%Qc ->
  (0 < time_steps p < 3 -> run p = Raise IndexError)
  /\ (3 <= time_steps p -> number_of_elements p = 1 -> run p = Raise NameError)
  /\ (3 <= time_steps p -> 2 <= number_of_elements p -> bar_length p = 0%Qc ->
      run p = Raise ZeroDivisionError).
Proof.
  intros HN HL. pose proof (run_outcome_spec p HN) as H. unfold run_outcome in H.
  rewrite (first_node_in_boundary_layer p HN (horizon_nonneg p HN HL)) in H.
  cbn [andb] in H.
  pose proof (first_node_neighbours p HN HL) as Hcnt.
  split; [|split].
  - intros HT.
    destruct (Nat.eqb_spec (time_steps p) 0); [lia|].
    destruct (Nat.ltb_spec (time_steps p) 3); [exact H | lia].
  - intros HT H1.
    destruct (Nat.eqb_spec (time_steps p) 0); [lia|].
    destruct (Nat.ltb_spec (time_steps p) 3); [lia|].
    destruct (Nat.leb_spec (length (neighbor_ids p 0)) 1); [exact H | lia].
  - intros HT H2 H0.
    destruct (Nat.eqb_spec (time_steps p) 0); [lia|].
    destruct (Nat.ltb_spec (time_steps p) 3); [lia|].
    destruct (Nat.leb_spec (length (neighbor_ids p 0)) 1); [lia|].
    rewrite (proj2 (c_undefined_iff p HN) H0) in H. exact H.
Qed.

Lemma runs_that_fail_at_step_0_witness :
  (0 < time_steps two_steps < 3
   -> run two_steps = Raise IndexError)
  /\ (3 <= time_steps two_steps
      -> number_of_elements two_steps = 1
      -> run two_steps = Raise NameError)
  /\ (3 <= time_steps two_steps
      -> 2 <= number_of_elements two_steps
      -> bar_length two_steps = 0%Qc
      -> run two_steps = Raise ZeroDivisionError).
Proof.
  apply (runs_that_fail_at_step_0 two_steps).
  - vm_compute. lia.
  - vm_compute. discriminate.
Defined.
